(** * fmiproxy: the forecast cache (refresh pipeline and bounded-area query)

    A shallow embedding of the forecast cache module of fmiproxy
    ([getForecasts], [refreshFrom], [getForecastsFromGrib],
    [createForecastLocations], [getGribBounds], [roundTo1Decimal]) together
    with the parts of the JavaScript runtime and of lodash, geolib, moment
    and bluebird that those functions call.

    - JavaScript numbers are IEEE 754 binary64 values: Rocq's primitive
      [float], whose operations round to nearest-even exactly as the
      JavaScript ones do.
    - Objects are mutable and shared: a [Store] holds a heap of forecast
      objects addressed by [ref] and the module variable [cachedForecasts],
      an array of references.
    - A string is a sequence of code units below 256; a time is a whole
      number of milliseconds since the epoch, and a moment made of it is
      valid only within the range of a JavaScript Date.
    - A computation that can throw, or a promise that can reject, returns a
      [result]; a computation that also reads or writes the store is a
      [Store -> result A * Store] function (the store survives an error).
    - The two calls to the external grid tool ([gribGet] and
      [gribParser.getForecastItemsFromGrib]) and the order in which the
      concurrent extractions settle are parameters.
    - A refresh runs without a query between its asynchronous steps; until
      its last step, the assignment to [cachedForecasts], it writes only to
      objects it has allocated itself. *)

From Stdlib Require Import ZArith Floats Uint63 Ascii String Permutation.
From stdpp Require Import base option list sets strings.

Open Scope Z_scope.

(* Decimal literals stand for the nearest double, as they do in JavaScript. *)
#[local] Set Warnings "-inexact-float".

(** ** Errors and the two monads *)

Inductive error : Type :=
  | ExternalError (reason : string)  (* a rejected external call *)
  | RangeError                       (* Array(length) with an invalid length *)
  | TypeError                        (* a property read on undefined *)
  | UnknownFormat.                   (* geolib: Error('Unknown format.') *)

Inductive result (A : Type) : Type :=
  | Ok (a : A)
  | Err (e : error).
Arguments Ok {A} a.
Arguments Err {A} e.

#[global] Instance result_ret : MRet result := fun A a => Ok a.
#[global] Instance result_bind : MBind result := fun A B f r =>
  match r with
  | Ok a => f a
  | Err e => Err e
  end.
#[global] Instance result_fmap : FMap result := fun A B f r =>
  match r with
  | Ok a => Ok (f a)
  | Err e => Err e
  end.

Definition is_Ok {A} (r : result A) : bool :=
  match r with Ok _ => true | Err _ => false end.

(** ** JavaScript values and numbers *)

Module JS.

(** A coordinate read out of an array or an object is a number or
    [undefined]. *)
Inductive value : Type :=
  | Undefined
  | Num (x : float).

(** Unary plus. *)
Definition to_number (v : value) : float :=
  match v with
  | Undefined => nan
  | Num x => x
  end.

(** [x || 0] on a number: NaN, +0 and -0 are falsy. *)
Definition or_zero (x : float) : float :=
  if PrimFloat.is_nan x || PrimFloat.is_zero x then 0%float else x.

(** The integer [(-1)^s * m]. *)
Definition sf_int (s : bool) (m : positive) : Z :=
  if s then Z.neg m else Z.pos m.

(** The float of sign [s] and magnitude [|n|], for [|n| <= 2^53]. *)
Definition float_of_int (s : bool) (n : Z) : float :=
  let a := of_uint63 (Uint63.of_Z (Z.abs n)) in
  if s then (- a)%float else a.

(** [Math.round]: the integer closest to [x], ties towards +infinity;
    NaN, the infinities and the zeros are returned as they are, and a
    result of zero keeps the sign of [x]. The value of a finite float is
    [(-1)^s * m * 2^e]; for [e < 0] the result is [floor (x + 1/2)],
    computed exactly over the integers. *)
Definition Math_round (x : float) : float :=
  match Prim2SF x with
  | S754_finite s m e =>
      if 0 <=? e then x
      else
        let d := 2 ^ (- e) in
        float_of_int s ((2 * sf_int s m + d) / (2 * d))
  | _ => x
  end.

(** [Array(Math.max(Math.ceil(x), 0))]: the length of the array that is
    created, or the RangeError that [Array] throws for a length that is not
    an integer below 2^32 (NaN and +infinity among them). *)
Definition array_length (x : float) : result nat :=
  match Prim2SF x with
  | S754_nan => Err RangeError
  | S754_infinity s => if s then Ok 0%nat else Err RangeError
  | S754_zero _ => Ok 0%nat
  | S754_finite s m e =>
      let c := if 0 <=? e then sf_int s m * 2 ^ e
               else - ((- sf_int s m) / 2 ^ (- e)) in
      let n := Z.max c 0 in
      if n <? 2 ^ 32 then Ok (Z.to_nat n) else Err RangeError
  end.

(** *** Strings *)

(** A character of the model's strings is a code unit below 256. The white
    space and line terminators of JavaScript among them, which [trim] and
    [parseFloat] skip: tab, LF, VT, FF, CR, space and the no-break space
    U+00A0. *)
Definition is_space (c : ascii) : bool :=
  let n := nat_of_ascii c in
  ((9 <=? n)%nat && (n <=? 13)%nat) || (n =? 32)%nat || (n =? 160)%nat.

Definition is_digit (c : ascii) : bool :=
  let n := nat_of_ascii c in
  (48 <=? n)%nat && (n <=? 57)%nat.

Fixpoint span (p : ascii -> bool) (s : list ascii) : list ascii * list ascii :=
  match s with
  | [] => ([], [])
  | c :: s' =>
      if p c then let '(a, b) := span p s' in (c :: a, b) else ([], s)
  end.

(** [s.split(c)] for a one-character separator: never empty. *)
Fixpoint split (sep : ascii) (s : list ascii) : list (list ascii) :=
  match s with
  | [] => [[]]
  | c :: s' =>
      if Ascii.eqb c sep then [] :: split sep s'
      else match split sep s' with
           | [] => [[c]]
           | w :: ws => (c :: w) :: ws
           end
  end.

Definition trim_start (s : list ascii) : list ascii := snd (span is_space s).
Definition trim (s : list ascii) : list ascii :=
  rev (trim_start (rev (trim_start s))).

Definition digits_value (ds : list ascii) : Z :=
  fold_left (fun acc c => 10 * acc + (Z.of_nat (nat_of_ascii c) - 48)) ds 0.

(** The double nearest to [m * 10^e], for [m >= 0]. *)
Definition decimal_to_float (m e : Z) : float :=
  match m with
  | Z.pos p =>
      match e with
      | Z.neg k =>
          SF2Prim (SFdiv prec emax (S754_finite false p 0)
                                   (S754_finite false (10 ^ k)%positive 0))
      | _ =>
          SF2Prim (SFdiv prec emax
                     (S754_finite false (p * Z.to_pos (10 ^ e))%positive 0)
                     (S754_finite false 1 0))
      end
  | _ => 0%float
  end.

(** The longest prefix that is an unsigned decimal literal
    (digits, an optional fraction, an optional exponent), as a mantissa and
    a decimal exponent. *)
Definition parse_unsigned (s : list ascii) : option (Z * Z) :=
  let '(ip, r1) := span is_digit s in
  let '(fp, r2) :=
    match r1 with
    | "."%char :: r =>
        let '(fp, r2) := span is_digit r in
        match ip, fp with
        | [], [] => ([], r1)
        | _, _ => (fp, r2)
        end
    | _ => ([], r1)
    end in
  match ip, fp with
  | [], [] => None
  | _, _ =>
      let ex :=
        match r2 with
        | c :: r =>
            if Ascii.eqb c "e" || Ascii.eqb c "E" then
              match r with
              | "+"%char :: r' =>
                  match fst (span is_digit r') with
                  | [] => 0
                  | ds => digits_value ds
                  end
              | "-"%char :: r' =>
                  match fst (span is_digit r') with
                  | [] => 0
                  | ds => - digits_value ds
                  end
              | _ =>
                  match fst (span is_digit r) with
                  | [] => 0
                  | ds => digits_value ds
                  end
              end
            else 0
        | [] => 0
        end in
      Some (digits_value (ip ++ fp), ex - Z.of_nat (length fp))
  end.

Definition Infinity_lit : list ascii := list_ascii_of_string "Infinity".

Fixpoint starts_with (p s : list ascii) : bool :=
  match p, s with
  | [], _ => true
  | a :: p', b :: s' => Ascii.eqb a b && starts_with p' s'
  | _ :: _, [] => false
  end.

Definition parse_unsigned_float (s : list ascii) : float :=
  if starts_with Infinity_lit s then infinity
  else match parse_unsigned s with
       | Some (m, e) => decimal_to_float m e
       | None => nan
       end.

(** [parseFloat]: leading white space is skipped, the longest prefix that is
    a signed decimal literal is converted, and NaN is returned when there is
    none. *)
Definition parseFloat (s : list ascii) : float :=
  match trim_start s with
  | "-"%char :: r => (- parse_unsigned_float r)%float
  | "+"%char :: r => parse_unsigned_float r
  | r => parse_unsigned_float r
  end.

End JS.

(** ** lodash (3.x): [_.range]

    [start = +start || 0], [step = +step || 0], and a missing [end] makes
    the call [range(0, start, step)]; then

      length = nativeMax(nativeCeil((end - start) / (step || 1)), 0)
      result = Array(length)
      while (++index < length) { result[index] = start; start += step }

    [_.filter] and [_.map] over arrays are [filter] and [map] on lists; the
    variants whose callback reads or writes the store are [filter_st] and
    [map_st] below. *)

Module Lodash.

Fixpoint range_fill (length : nat) (start step : float) : list float :=
  match length with
  | O => []
  | S n => start :: range_fill n (start + step)%float step
  end.

Definition range (start end_ : JS.value) (step : float) : result (list float) :=
  let start := JS.or_zero (JS.to_number start) in
  let step := JS.or_zero step in
  let '(start, end_) :=
    match end_ with
    | JS.Undefined => (0%float, start)
    | JS.Num e => (start, JS.or_zero e)
    end in
  let step1 := if PrimFloat.is_zero step then 1%float else step in
  length ← JS.array_length ((end_ - start) / step1)%float;
  Ok (range_fill length start step).

End Lodash.

(** ** geolib (2.x): [isPointInside]

    Every coordinate is read through [useDecimal], which throws on a value
    that is not a decimal number, and returns [parseFloat] of its decimal
    string otherwise (so -0 becomes 0). The test is the even-odd crossing
    count over the edges [(coords[i], coords[j])], [j] the index before [i]
    (the last one for [i = 0]):

      if (((lng(ci) <= lng(p) && lng(p) < lng(cj)) ||
           (lng(cj) <= lng(p) && lng(p) < lng(ci))) &&
          (lat(p) < (lat(cj) - lat(ci)) * (lng(p) - lng(ci))
                      / (lng(cj) - lng(ci)) + lat(ci)))
        c = !c                                                          *)

Module Geolib.

Record point : Type := { latitude : JS.value; longitude : JS.value }.

Definition useDecimal (v : JS.value) : result float :=
  match v with
  | JS.Undefined => Err TypeError
  | JS.Num x =>
      if PrimFloat.is_nan x then Err UnknownFormat
      else Ok (if PrimFloat.is_zero x then 0%float else x)
  end.

Definition lat_of (p : point) : result float := useDecimal (latitude p).
Definition lng_of (p : point) : result float := useDecimal (longitude p).

(** [a && b] and [a || b]: [b] is evaluated (and can throw) only when [a]
    does not decide. *)
Definition and_then (a b : result bool) : result bool :=
  x ← a; if x : bool then b else Ok false.
Definition or_else (a b : result bool) : result bool :=
  x ← a; if x : bool then Ok true else b.

Definition le_r (a b : result float) : result bool :=
  x ← a; y ← b; Ok (x <=? y)%float.
Definition lt_r (a b : result float) : result bool :=
  x ← a; y ← b; Ok (x <? y)%float.

Definition crosses (p ci cj : point) : result bool :=
  and_then
    (or_else
       (and_then (le_r (lng_of ci) (lng_of p)) (lt_r (lng_of p) (lng_of cj)))
       (and_then (le_r (lng_of cj) (lng_of p)) (lt_r (lng_of p) (lng_of ci))))
    (plat ← lat_of p;
     latj ← lat_of cj; lati ← lat_of ci;
     plng ← lng_of p; lngi ← lng_of ci;
     lngj ← lng_of cj; lngi' ← lng_of ci;
     lati' ← lat_of ci;
     Ok (plat <? (latj - lati) * (plng - lngi) / (lngj - lngi') + lati')%float).

Fixpoint isPointInside_loop (p : point) (cj : point) (rest : list point)
    (c : bool) : result bool :=
  match rest with
  | [] => Ok c
  | ci :: rest' =>
      x ← crosses p ci cj;
      isPointInside_loop p ci rest' (if x : bool then negb c else c)
  end.

Definition isPointInside (p : point) (coords : list point) : result bool :=
  match last coords with
  | None => Ok false
  | Some cl => isPointInside_loop p cl coords false
  end.

End Geolib.

(** ** moment: a moment is a time value, milliseconds since the epoch, or
    invalid

    [moment(x)] of a number wraps [new Date(x)], whose time value is
    [TimeClip(x)]: NaN for a number more than 8.64e15 milliseconds away from
    the epoch, and the moment is then invalid ([None]). [isAfter] compares
    the two time values with [>], which is false as soon as one of them is
    NaN. Times are whole numbers of milliseconds. *)

Module Moment.

Definition t : Type := option Z.

Definition max_time : Z := 8640000000000000.

Definition moment (x : Z) : t :=
  if (- max_time <=? x) && (x <=? max_time) then Some x else None.

Definition isAfter (a b : t) : bool :=
  match a, b with
  | Some x, Some y => y <? x
  | _, _ => false
  end.

End Moment.

(** ** The data of the cache *)

(** A query or grid bounding box, [{swCorner: {lat, lng}, neCorner: {lat, lng}}]. *)
Module Bounds.

Record Corner : Type := { lat : JS.value; lng : JS.value }.
Record BoundingBox : Type := { swCorner : Corner; neCorner : Corner }.

End Bounds.

(** A forecast item: its [time] and the rest of it, which the cache never
    looks at. *)
Record ForecastItem : Type := { time : Z; values : string }.

(** A forecast location object [{lat, lng}], to which the extraction adds
    [items] ([None] while the property is missing). *)
Record Forecast : Type := {
  lat : float;
  lng : float;
  items : option (list ForecastItem)
}.

(** A reference to a forecast object: its index in the heap. *)
Abbreviation ref := nat.

(** The heap of forecast objects and the module variable. *)
Record Store : Type := {
  heap : list Forecast;
  cachedForecasts : list ref
}.

(** The store when the module is loaded: [var cachedForecasts = []]. *)
Definition initial : Store := {| heap := []; cachedForecasts := [] |}.

Definition M (A : Type) : Type := Store -> result A * Store.

Definition ret {A} (a : A) : M A := fun s => (Ok a, s).
Definition bind {A B} (m : M A) (k : A -> M B) : M B := fun s =>
  match m s with
  | (Ok a, s') => k a s'
  | (Err e, s') => (Err e, s')
  end.
Definition lift {A} (r : result A) : M A := fun s => (r, s).

Declare Scope store_scope.
Delimit Scope store_scope with store.
Notation "x <- m ;; k" := (bind m (fun x => k))
  (at level 100, m at next level, right associativity) : store_scope.
Open Scope store_scope.

(** Reading the object behind a reference. *)
Definition deref (r : ref) : M Forecast := fun s =>
  match heap s !! r with
  | Some o => (Ok o, s)
  | None => (Err TypeError, s)
  end.

(** Writing the object behind a reference. *)
Definition assign (r : ref) (o : Forecast) : M unit := fun s =>
  (Ok tt, {| heap := <[r := o]> (heap s); cachedForecasts := cachedForecasts s |}).

(** A new object. *)
Definition alloc (o : Forecast) : M ref := fun s =>
  (Ok (length (heap s)),
   {| heap := heap s ++ [o]; cachedForecasts := cachedForecasts s |}).

Definition get_cachedForecasts : M (list ref) := fun s => (Ok (cachedForecasts s), s).
Definition set_cachedForecasts (l : list ref) : M unit := fun s =>
  (Ok tt, {| heap := heap s; cachedForecasts := l |}).

(** [_.filter], [_.map] and [Array.prototype.forEach] with a callback that
    works on the store. *)
Fixpoint filter_st {A} (p : A -> M bool) (l : list A) : M (list A) :=
  match l with
  | [] => ret []
  | x :: l' =>
      b <- p x ;;
      rest <- filter_st p l' ;;
      ret (if b : bool then x :: rest else rest)
  end.

Fixpoint map_st {A B} (f : A -> M B) (l : list A) : M (list B) :=
  match l with
  | [] => ret []
  | x :: l' =>
      y <- f x ;;
      rest <- map_st f l' ;;
      ret (y :: rest)
  end.

(** [forEach] over [l], the callback updating a local variable of type [S]. *)
Fixpoint forEach {A S} (l : list A) (f : A -> S -> M S) (acc : S) : M S :=
  match l with
  | [] => ret acc
  | x :: l' => acc' <- f x acc ;; forEach l' f acc'
  end.

(** ** The forecast cache module *)

Definition LAT_GRID_INCREMENT : float := 0.2.
Definition LNG_GRID_INCREMENT : float := 0.5.

Definition roundTo1Decimal (num : float) : float :=
  (JS.Math_round (num * 10) / 10)%float.

(** The [corners] array that [getForecasts] builds from its [bounds]. *)
Definition corners (bounds : Bounds.BoundingBox) : list Geolib.point :=
  let sw := Bounds.swCorner bounds in
  let ne := Bounds.neCorner bounds in
  [ {| Geolib.latitude := Bounds.lat sw; Geolib.longitude := Bounds.lng sw |};
    {| Geolib.latitude := Bounds.lat ne; Geolib.longitude := Bounds.lng sw |};
    {| Geolib.latitude := Bounds.lat ne; Geolib.longitude := Bounds.lng ne |};
    {| Geolib.latitude := Bounds.lat sw; Geolib.longitude := Bounds.lng ne |} ].

(** The callback of the spatial [_.filter]. *)
Definition inBounds (corners : list Geolib.point) (forecast : ref) : M bool :=
  o <- deref forecast ;;
  lift (Geolib.isPointInside
          {| Geolib.latitude := JS.Num (lat o); Geolib.longitude := JS.Num (lng o) |}
          corners).

(** [_.filter(forecast.items, ...)]: a missing [items] filters to []. *)
Definition itemsAfter (startTime : Moment.t) (its : option (list ForecastItem))
    : list ForecastItem :=
  filter (fun item => Moment.isAfter (Moment.moment (time item)) startTime = true)
         (default [] its).

(** The callback of the [_.map]: it assigns the filtered array to the
    [items] property of the object it was given and returns that object. *)
Definition keepAfter (startTime : Moment.t) (forecast : ref) : M ref :=
  o <- deref forecast ;;
  _ <- assign forecast
         {| lat := lat o; lng := lng o;
            items := Some (itemsAfter startTime (items o)) |} ;;
  ret forecast.

(** [getForecasts(bounds, startTime)]; [startTime] is [None] when the
    argument is omitted. *)
Definition getForecasts (bounds : Bounds.BoundingBox) (startTime : option Z)
    : M (list ref) :=
  let startTime := Moment.moment (default 0 startTime) in
  let corners := corners bounds in
  cached <- get_cachedForecasts ;;
  forecastsInBounds <- filter_st (inBounds corners) cached ;;
  filteredByTime <- map_st (keepAfter startTime) forecastsInBounds ;;
  ret filteredByTime.

(** [createForecastLocations]: the two rounded ranges, then one new object
    per pair, pushed latitude by latitude. *)
Definition createForecastLocations (bounds : Bounds.BoundingBox)
    (latIncrement lngIncrement : float) : M (list ref) :=
  let sw := Bounds.swCorner bounds in
  let ne := Bounds.neCorner bounds in
  latitudes <- lift (map roundTo1Decimal <$>
                       Lodash.range (Bounds.lat sw) (Bounds.lat ne) latIncrement) ;;
  longitudes <- lift (map roundTo1Decimal <$>
                        Lodash.range (Bounds.lng sw) (Bounds.lng ne) lngIncrement) ;;
  forEach latitudes (fun lat forecastLocations =>
    forEach longitudes (fun lng forecastLocations =>
      r <- alloc {| lat := lat; lng := lng; items := None |} ;;
      ret (forecastLocations ++ [r])) forecastLocations) [].

(** ** bluebird: [Promise.map] with a concurrency limit

    The mapper promises settle in an order the environment chooses: at each
    step one of the promises still pending settles, the one at position
    [pick step mod (number pending)] of those pending. The limit restricts
    which orders can occur, never what a given order produces, so the model
    takes the order from a function of the limit. The call and the [then]
    callback of a mapper run when its promise settles (the arguments of the
    call, [location.lat] and [location.lng], are never assigned, so they are
    what they were when the mapper started). The first rejection rejects the
    whole [Promise.map], with the store as it is then: what settles later
    writes to objects of a list that nothing refers to any more. The
    fulfilled values are delivered in input order. *)

Definition schedule : Type := nat -> nat -> nat.  (* concurrency, step *)

Fixpoint settle_order (pick : nat -> nat) (step : nat) (fuel : nat)
    (pending : list nat) : list nat :=
  match fuel with
  | O => []
  | S fuel' =>
      let k := (pick step mod length pending)%nat in
      match pending !! k with
      | Some i => i :: settle_order pick (S step) fuel' (delete k pending)
      | None => []
      end
  end.

Fixpoint settle {A B} (mapper : A -> M B) (xs : list A) (order : list nat)
    (results : list (option B)) : M (list (option B)) :=
  match order with
  | [] => ret results
  | i :: order' =>
      match xs !! i with
      | Some x =>
          b <- mapper x ;;
          settle mapper xs order' (<[i := Some b]> results)
      | None => settle mapper xs order' results
      end
  end.

Definition Promise_map {A B} (sched : schedule) (xs : list A)
    (mapper : A -> M B) (concurrency : nat) : M (list B) :=
  let n := length xs in
  results <- settle mapper xs (settle_order (sched concurrency) 0 n (seq 0 n))
               (replicate n None) ;;
  lift (match mapM (M := option) id results with
        | Some bs => Ok bs
        | None => Err TypeError
        end).

(** ** The refresh pipeline, over the external grid tool *)

Section Refresh.

(** [utils.grib_get]: the output of the tool for an argument list. *)
Variable gribGet : list string -> result string.
(** [gribParser.getForecastItemsFromGrib]. *)
Variable getForecastItemsFromGrib :
  string -> float -> float -> result (list ForecastItem).
(** [require('os').cpus().length]. *)
Variable CPU_COUNT : nat.
(** The order in which concurrent extractions settle. *)
Variable sched : schedule.

Definition boundsKeys : string :=
  "latitudeOfFirstGridPointInDegrees,longitudeOfFirstGridPointInDegrees,latitudeOfLastGridPointInDegrees,longitudeOfLastGridPointInDegrees".

(** [coords[i]] *)
Definition at_index (coords : list float) (i : nat) : JS.value :=
  match coords !! i with
  | Some x => JS.Num x
  | None => JS.Undefined
  end.

Definition getGribBounds (gribFile : string) : result Bounds.BoundingBox :=
  output ← gribGet ["-p"; boundsKeys; gribFile];
  let line := List.hd [] (JS.split "010"%char (list_ascii_of_string output)) in
  let coords := map JS.parseFloat (JS.split " "%char (JS.trim line)) in
  Ok {| Bounds.swCorner := {| Bounds.lat := at_index coords 0;
                              Bounds.lng := at_index coords 1 |};
        Bounds.neCorner := {| Bounds.lat := at_index coords 2;
                              Bounds.lng := at_index coords 3 |} |}.

(** The mapper of [getForecastsFromGrib]:
    [_.extend(location, { items: forecastItems })] sets [items] on the
    object it was given and returns that object. *)
Definition extractInto (gribFile : string) (location : ref) : M ref :=
  o <- deref location ;;
  forecastItems <- lift (getForecastItemsFromGrib gribFile (lat o) (lng o)) ;;
  _ <- assign location
         {| lat := lat o; lng := lng o; items := Some forecastItems |} ;;
  ret location.

Definition getForecastsFromGrib (locations : list ref) (gribFile : string)
    : M (list ref) :=
  Promise_map sched locations (extractInto gribFile) CPU_COUNT.

Definition refreshFrom (gribFile : string) : M unit :=
  bounds <- lift (getGribBounds gribFile) ;;
  forecastLocations <-
    createForecastLocations bounds LAT_GRID_INCREMENT LNG_GRID_INCREMENT ;;
  forecasts <- getForecastsFromGrib forecastLocations gribFile ;;
  set_cachedForecasts forecasts.

End Refresh.

(** * Vocabulary of the properties *)

(** The point that [getForecasts] hands to geolib for a cached object. *)
Definition point_of (o : Forecast) : Geolib.point :=
  {| Geolib.latitude := JS.Num (lat o); Geolib.longitude := JS.Num (lng o) |}.

(** The object behind [r] exists and the containment test puts it inside
    the polygon [cs]. *)
Definition in_polygon (h : list Forecast) (cs : list Geolib.point) (r : ref)
    : bool :=
  match h !! r with
  | Some o =>
      match Geolib.isPointInside (point_of o) cs with
      | Ok b => b
      | Err _ => false
      end
  | None => false
  end.

(** What [keepAfter startTime] leaves behind a reference that held [o];
    [startTime] is a moment. *)
Definition kept (startTime : Moment.t) (o : Forecast) : Forecast :=
  {| lat := lat o; lng := lng o;
     items := Some (itemsAfter startTime (items o)) |}.

(** A time that is a valid date: at most 8.64e15 milliseconds away from the
    epoch. *)
Definition in_Date_range (t : Z) : Prop :=
  - 8640000000000000 <= t <= 8640000000000000.

#[global] Instance in_Date_range_dec t : Decision (in_Date_range t).
Proof. unfold in_Date_range. apply _. Defined.

(** The item is dated strictly after [startTime], both being valid dates. *)
Definition dated_after (startTime : Z) (item : ForecastItem) : Prop :=
  in_Date_range startTime /\ in_Date_range (time item) /\ startTime < time item.

#[global] Instance dated_after_dec startTime item :
  Decision (dated_after startTime item).
Proof. unfold dated_after. apply _. Defined.

(** A coordinate that [useDecimal] accepts. *)
Definition numeric (v : JS.value) : bool :=
  match v with
  | JS.Undefined => false
  | JS.Num x => negb (PrimFloat.is_nan x)
  end.

Definition numeric_point (p : Geolib.point) : bool :=
  numeric (Geolib.latitude p) && numeric (Geolib.longitude p).

(** A box whose four coordinates are numbers. *)
Definition numeric_box (b : Bounds.BoundingBox) : bool :=
  numeric (Bounds.lat (Bounds.swCorner b)) && numeric (Bounds.lng (Bounds.swCorner b)) &&
  numeric (Bounds.lat (Bounds.neCorner b)) && numeric (Bounds.lng (Bounds.neCorner b)).

(** A store as the module builds it: every cached reference points to an
    object, and the coordinates of that object are numbers. *)
Definition cache_ok (s : Store) : bool :=
  forallb (fun r => match heap s !! r with
                    | Some o => numeric_point (point_of o)
                    | None => false
                    end) (cachedForecasts s).

(** [swCorner.lat > neCorner.lat] *)
Definition lat_inverted (b : Bounds.BoundingBox) : bool :=
  (JS.to_number (Bounds.lat (Bounds.neCorner b))
     <? JS.to_number (Bounds.lat (Bounds.swCorner b)))%float.

(** The objects of a grid: for each latitude, in order, one object per
    longitude, in order. *)
Definition grid (latitudes longitudes : list float) : list Forecast :=
  concat (map (fun la => map (fun lo => {| lat := la; lng := lo; items := None |})
                             longitudes) latitudes).

(** The two rounded ranges of [createForecastLocations]. *)
Definition latitudes_of (bounds : Bounds.BoundingBox) (latIncrement : float)
    : result (list float) :=
  map roundTo1Decimal <$>
    Lodash.range (Bounds.lat (Bounds.swCorner bounds))
                 (Bounds.lat (Bounds.neCorner bounds)) latIncrement.
Definition longitudes_of (bounds : Bounds.BoundingBox) (lngIncrement : float)
    : result (list float) :=
  map roundTo1Decimal <$>
    Lodash.range (Bounds.lng (Bounds.swCorner bounds))
                 (Bounds.lng (Bounds.neCorner bounds)) lngIncrement.

(** The first line of the tool's output, trimmed and split at single
    spaces. *)
Definition bounds_tokens (output : string) : list (list ascii) :=
  JS.split " "%char
    (JS.trim (List.hd [] (JS.split "010"%char (list_ascii_of_string output)))).

(** Every location of the list points to an object whose extraction is
    fulfilled. *)
Definition all_fulfilled
    (getForecastItemsFromGrib : string -> float -> float -> result (list ForecastItem))
    (gribFile : string) (locations : list ref) (s : Store) : bool :=
  forallb (fun r => match heap s !! r with
                    | Some o => is_Ok (getForecastItemsFromGrib gribFile (lat o) (lng o))
                    | None => false
                    end) locations.

(** ** Binary64 numbers and the rectangle of a box *)

(** A key that orders the spec floats other than NaN as [SFcompare] does:
    class and sign first, then exponent, then mantissa. *)
Definition key1 (f : spec_float) : Z :=
  match f with
  | S754_infinity true => -2
  | S754_finite true _ _ => -1
  | S754_finite false _ _ => 1
  | S754_infinity false => 2
  | _ => 0
  end.
Definition key2 (f : spec_float) : Z :=
  match f with
  | S754_finite true _ e => - e
  | S754_finite false _ e => e
  | _ => 0
  end.
Definition key3 (f : spec_float) : Z :=
  match f with
  | S754_finite true m _ => Z.neg m
  | S754_finite false m _ => Z.pos m
  | _ => 0
  end.

Definition key_lt (f g : spec_float) : Prop :=
  key1 f < key1 g \/
  (key1 f = key1 g /\ (key2 f < key2 g \/ (key2 f = key2 g /\ key3 f < key3 g))).
Definition key_eq (f g : spec_float) : Prop :=
  key1 f = key1 g /\ key2 f = key2 g /\ key3 f = key3 g.

(** Zero or finite; finite or infinite. *)
Definition finiteb (x : float) : bool :=
  match Prim2SF x with
  | S754_zero _ | S754_finite _ _ _ => true
  | _ => false
  end.
Definition nonzerob (x : float) : bool :=
  match Prim2SF x with
  | S754_finite _ _ _ | S754_infinity _ => true
  | _ => false
  end.

(** The number that [useDecimal] returns for a number. *)
Definition decimal (x : float) : float :=
  if PrimFloat.is_zero x then 0%float else x.

(** The point of a latitude and a longitude. *)
Definition point (la lo : float) : Geolib.point :=
  {| Geolib.latitude := JS.Num la; Geolib.longitude := JS.Num lo |}.

(** The box of four numbers, sw = (a, b) and ne = (c, d). *)
Definition box (swLat swLng neLat neLng : float) : Bounds.BoundingBox :=
  {| Bounds.swCorner := {| Bounds.lat := JS.Num swLat; Bounds.lng := JS.Num swLng |};
     Bounds.neCorner := {| Bounds.lat := JS.Num neLat; Bounds.lng := JS.Num neLng |} |}.

(** The rectangle of a box, its south and west edges included. *)
Definition in_box (a b c d x y : float) : bool :=
  ((b <=? y) && (y <? d) && ((a <=? x) && (x <? c)))%float.

(** The coordinates of the box are finite and its two longitudes have
    differences other than zero. *)
Definition box_in_reach (a b c d : float) : bool :=
  finiteb a && finiteb b && finiteb c && finiteb d &&
  nonzerob (d - b) && nonzerob (b - d).

(** The coordinates of the location are finite and so are the differences of
    its longitude and the longitudes [b] and [d] of the box. *)
Definition location_in_reach (b d : float) (o : Forecast) : bool :=
  finiteb (lat o) && finiteb (lng o) &&
  finiteb (lng o - b) && finiteb (lng o - d).

(** Every cached reference points to a location in reach. *)
Definition cache_in_reach (b d : float) (s : Store) : bool :=
  forallb (fun r => match heap s !! r with
                    | Some o => location_in_reach b d o
                    | None => false
                    end) (cachedForecasts s).

(** The object behind [r] lies in the rectangle of the box. *)
Definition within (a b c d : float) (h : list Forecast) (r : ref) : bool :=
  match h !! r with
  | Some o => in_box a b c d (lat o) (lng o)
  | None => false
  end.

(** ** Example data *)

Definition item (t : Z) : ForecastItem := {| time := t; values := "" |}.

(** sw = (60.0, 24.0), ne = (61.0, 25.0) *)
Definition box_60_24_61_25 : Bounds.BoundingBox := box 60 24 61 25.
(** the same corners with the latitudes exchanged: swCorner.lat > neCorner.lat *)
Definition box_61_24_60_25 : Bounds.BoundingBox := box 61 24 60 25.

Definition located (la lo : float) (ts : list Z) : Forecast :=
  {| lat := la; lng := lo; items := Some (map item ts) |}.

(** A snapshot of one location, (60.5, 24.5), with items at 1000, 2000, 3000. *)
Definition snapshot1 : Store :=
  {| heap := [located 60.5 24.5 [1000; 2000; 3000]]; cachedForecasts := [0%nat] |}.

(** [snapshot1] after the query from 2000. *)
Definition snapshot1_from_2000 : Store :=
  {| heap := [located 60.5 24.5 [3000]]; cachedForecasts := [0%nat] |}.

(** A snapshot of three locations, the middle one north of the box. *)
Definition snapshot3 : Store :=
  {| heap := [located 60.5 24.5 [1000]; located 62 24.5 [1000]; located 60 24 [1000]];
     cachedForecasts := [0%nat; 1%nat; 2%nat] |}.

(** A snapshot whose only item is dated at the epoch. *)
Definition snapshot_epoch : Store :=
  {| heap := [located 60.5 24.5 [0]]; cachedForecasts := [0%nat] |}.

(** The external tool and the schedule of the examples: every point has one
    item, and the extractions settle in an order that is not the input order
    (2, 1, 0 for three of them). *)
Definition one_item : string -> float -> float -> result (list ForecastItem) :=
  fun _ _ _ => Ok [item 1000].
Definition shuffled : schedule := fun _ _ => 5%nat.

(** The extraction of the examples: two items south of latitude 61, one
    item north of it. *)
Definition by_latitude : string -> float -> float -> result (list ForecastItem) :=
  fun _ la _ => Ok (if (la <? 61)%float then [item 1000; item 2000] else [item 3000]).

(** A metadata query that reports the grid from (60, 24) to (60.5, 25), and
    an extraction that is rejected on the row of latitude 60.2. *)
Definition bounds_60_24 : list string -> result string :=
  fun _ => Ok "60 24 60.5 25".
Definition rejects_60_2 : string -> float -> float -> result (list ForecastItem) :=
  fun _ la _ =>
    if (la =? 60.2)%float then Err (ExternalError "grib_get failed")
    else Ok [item 1000].

(** ** What an extraction leaves in the store, and when a refresh step fails *)

Section PipelineVocabulary.

Variable gribGet : list string -> result string.
Variable getForecastItemsFromGrib :
  string -> float -> float -> result (list ForecastItem).
Variable gribFile : string.

(** The object that a fulfilled extraction leaves in place of [o]. *)
Definition extracted (o : Forecast) : Forecast :=
  match getForecastItemsFromGrib gribFile (lat o) (lng o) with
  | Ok forecastItems =>
      {| lat := lat o; lng := lng o; items := Some forecastItems |}
  | Err _ => o
  end.

(** The store [s] is [s0] with the objects behind [settled] extracted. *)
Definition after (settled : list ref) (s0 s : Store) : Prop :=
  cachedForecasts s = cachedForecasts s0 /\
  length (heap s) = length (heap s0) /\
  forall r o, heap s0 !! r = Some o ->
    heap s !! r = Some (if bool_decide (r ∈ settled) then extracted o else o).

(** A step of the pipeline fails: the bounds extraction, or the extraction
    at one of the points of the grid. *)
Inductive step_fails (s : Store) : Prop :=
  | bounds_fail e :
      gribGet ["-p"; boundsKeys; gribFile] = Err e ->
      step_fails s
  | point_fail bounds locations s1 r o e :
      getGribBounds gribGet gribFile = Ok bounds ->
      createForecastLocations bounds LAT_GRID_INCREMENT LNG_GRID_INCREMENT s
        = (Ok locations, s1) ->
      r ∈ locations ->
      heap s1 !! r = Some o ->
      getForecastItemsFromGrib gribFile (lat o) (lng o) = Err e ->
      step_fails s.

End PipelineVocabulary.

(** ** The store after a query, after a refresh, and the stores in reach *)

(** The store that a query from [startTime] returning [refs] leaves: the
    objects behind [refs] have lost the items that are not after
    [startTime]. *)
Definition queried (refs : list ref) (startTime : Moment.t) (s : Store) : Store :=
  {| heap := imap (fun r o => if bool_decide (r ∈ refs) then kept startTime o else o)
                  (heap s);
     cachedForecasts := cachedForecasts s |}.

Section RefreshVocabulary.

Variable getForecastItemsFromGrib :
  string -> float -> float -> result (list ForecastItem).
Variable gribFile : string.

(** The extraction is fulfilled at every point of the grid. *)
Definition grid_fulfilled (latitudes longitudes : list float) : bool :=
  forallb (fun o => is_Ok (getForecastItemsFromGrib gribFile (lat o) (lng o)))
          (grid latitudes longitudes).

(** The store after a refresh over the grid of [latitudes] and [longitudes]:
    the objects of the grid, extracted, after the objects there were, and
    [cachedForecasts] the references to them. *)
Definition refreshed (s : Store) (latitudes longitudes : list float) : Store :=
  {| heap := heap s ++
             map (extracted getForecastItemsFromGrib gribFile)
                 (grid latitudes longitudes);
     cachedForecasts :=
       seq (length (heap s)) (length latitudes * length longitudes) |}.

End RefreshVocabulary.

(** The module exports [refreshFrom] and [getForecasts]: a store is reached
    from the initial one by calls of the two, one after the other, each with
    any arguments, any behaviour of the external tool, any settling order
    and any outcome. (The objects that a query returns are the cached ones;
    a caller that writes to them is not part of the module.) *)
Inductive reachable : Store -> Prop :=
  | reachable_initial : reachable initial
  | reachable_getForecasts bounds startTime s res s' :
      reachable s ->
      getForecasts bounds startTime s = (res, s') ->
      reachable s'
  | reachable_refreshFrom gribGet getForecastItemsFromGrib CPU_COUNT
      (sched : schedule) gribFile s res s' :
      reachable s ->
      refreshFrom gribGet getForecastItemsFromGrib CPU_COUNT sched gribFile s
        = (res, s') ->
      reachable s'.

(** No reference is cached twice, and every cached reference points to an
    object that has its [items] and numbers for coordinates. *)
Definition cached_sound (s : Store) : Prop :=
  NoDup (cachedForecasts s) /\
  forall r, r ∈ cachedForecasts s -> exists o forecastItems,
    heap s !! r = Some o /\ items o = Some forecastItems /\
    PrimFloat.is_nan (lat o) = false /\ PrimFloat.is_nan (lng o) = false.

(** ** The output of the metadata query *)

(** A token: not empty, without white space (no-break space included). *)
Definition word (w : list ascii) : bool :=
  match w with
  | [] => false
  | _ => forallb (fun c => negb (JS.is_space c)) w
  end.

(** White space within a line. *)
Definition blank (p : list ascii) : bool :=
  forallb (fun c => JS.is_space c && negb (Ascii.eqb c "010")) p.

(** The output of the tool: a first line of four tokens between single
    spaces, with white space around them, and what follows the line, if
    anything does. *)
Definition bounds_output (pad1 t0 t1 t2 t3 pad2 : list ascii)
    (rest : option (list ascii)) : string :=
  string_of_list_ascii
    (pad1 ++ (t0 ++ " "%char :: t1 ++ " "%char :: t2 ++ " "%char :: t3) ++ pad2 ++
     match rest with
     | None => []
     | Some r => "010"%char :: r
     end).

(** * Properties *)

(** ** The store monad *)

Lemma bind_inv {A B} (m : M A) (k : A -> M B) s r s' :
  bind m k s = (r, s') ->
  (exists e, m s = (Err e, s') /\ r = Err e) \/
  (exists a s1, m s = (Ok a, s1) /\ k a s1 = (r, s')).
Proof.
  unfold bind. destruct (m s) as [[a|e] s1]; intros H.
  - right. eauto.
  - left. exists e. by inversion H.
Qed.

Lemma bind_Ok_inv {A B} (m : M A) (k : A -> M B) s b s' :
  bind m k s = (Ok b, s') ->
  exists a s1, m s = (Ok a, s1) /\ k a s1 = (Ok b, s').
Proof.
  intros H. apply bind_inv in H as [(e & _ & ?)|?]; [done|done].
Qed.

Lemma bind_Ok {A B} (m : M A) (k : A -> M B) s a s1 :
  m s = (Ok a, s1) -> bind m k s = k a s1.
Proof. unfold bind. by intros ->. Qed.

Lemma bind_Err {A B} (m : M A) (k : A -> M B) s e s1 :
  m s = (Err e, s1) -> bind m k s = (Err e, s1).
Proof. unfold bind. by intros ->. Qed.

(** ** The spatial filter reads the store and never writes it *)

Lemma inBounds_eq cs r s :
  inBounds cs r s =
  (match heap s !! r with
   | Some o => Geolib.isPointInside (point_of o) cs
   | None => Err TypeError
   end, s).
Proof.
  unfold inBounds, bind, deref, lift. by destruct (heap s !! r).
Qed.

Lemma filter_st_inBounds_state cs l s :
  snd (filter_st (inBounds cs) l s) = s.
Proof.
  induction l as [|r l IH]; [done|].
  cbn [filter_st]. unfold bind at 1. rewrite inBounds_eq.
  destruct (match heap s !! r with Some _ => _ | None => _ end) as [b|e]; [|done].
  unfold bind. destruct (filter_st (inBounds cs) l s) as [[rest|e] s1] eqn:E;
    cbn in IH |- *; by subst.
Qed.

Lemma filter_st_inBounds_Ok cs l s l' s' :
  filter_st (inBounds cs) l s = (Ok l', s') ->
  s' = s /\ l' = filter (fun r => in_polygon (heap s) cs r = true) l.
Proof.
  intros H. split.
  { by rewrite <- (filter_st_inBounds_state cs l s), H. }
  revert l' s' H. induction l as [|r l IH]; intros l' s' H.
  { cbn in H. by inversion H. }
  cbn [filter_st] in H.
  apply bind_Ok_inv in H as (b & s1 & Hb & H).
  apply bind_Ok_inv in H as (rest & s2 & Hrest & H).
  rewrite inBounds_eq in Hb. inversion Hb as [[Hb' Hs1]]. subst s1.
  inversion H; subst l' s'. clear H.
  apply IH in Hrest. subst rest.
  assert (in_polygon (heap s) cs r = b) as Hin.
  { unfold in_polygon. destruct (heap s !! r) as [o|]; [|done]. by rewrite Hb'. }
  rewrite filter_cons, Hin. destruct b; by case_decide.
Qed.

(** ** The time filter rewrites the objects it is given *)

Lemma moment_spec x :
  Moment.moment x = if decide (in_Date_range x) then Some x else None.
Proof.
  unfold Moment.moment.
  destruct (decide (in_Date_range x)) as [H|H]; unfold in_Date_range in H;
    destruct (Z.leb_spec (- Moment.max_time) x),
             (Z.leb_spec x Moment.max_time);
    unfold Moment.max_time in *; cbn; done || lia.
Qed.

(** [moment(item.time).isAfter(moment(startTime))] *)
Lemma isAfter_spec startTime item :
  Moment.isAfter (Moment.moment (time item)) (Moment.moment startTime) = true <->
  dated_after startTime item.
Proof.
  rewrite !moment_spec. unfold dated_after, Moment.isAfter.
  repeat case_decide; rewrite ?Z.ltb_lt; try tauto; split; try done; tauto.
Qed.

Lemma itemsAfter_spec startTime its :
  itemsAfter (Moment.moment startTime) its =
  filter (dated_after startTime) (default [] its).
Proof.
  unfold itemsAfter. apply list_filter_iff. intros item. apply isAfter_spec.
Qed.

Lemma itemsAfter_idemp startTime its :
  itemsAfter startTime (Some (itemsAfter startTime its)) = itemsAfter startTime its.
Proof.
  unfold itemsAfter. cbn [default from_option id].
  generalize (default [] its) as l. intros l.
  induction l as [|x l IH]; [done|].
  rewrite filter_cons. case_decide; [|exact IH].
  rewrite filter_cons. case_decide; [|done]. by rewrite IH.
Qed.

Lemma kept_idemp startTime o : kept startTime (kept startTime o) = kept startTime o.
Proof. unfold kept. cbn [lat lng items]. by rewrite itemsAfter_idemp. Qed.

Lemma keepAfter_eq startTime r s :
  keepAfter startTime r s =
  match heap s !! r with
  | Some o =>
      (Ok r, {| heap := <[r := kept startTime o]> (heap s);
                cachedForecasts := cachedForecasts s |})
  | None => (Err TypeError, s)
  end.
Proof.
  unfold keepAfter, bind, deref, assign, ret. by destruct (heap s !! r).
Qed.

Lemma map_st_keepAfter_Ok startTime l s l' s' :
  map_st (keepAfter startTime) l s = (Ok l', s') ->
  l' = l /\
  cachedForecasts s' = cachedForecasts s /\
  length (heap s') = length (heap s) /\
  forall r o, heap s !! r = Some o ->
    heap s' !! r = Some (if bool_decide (r ∈ l) then kept startTime o else o).
Proof.
  revert s l' s'. induction l as [|x l IH]; intros s l' s' H.
  { cbn in H. inversion H; subst. repeat split; auto. }
  cbn [map_st] in H.
  apply bind_Ok_inv in H as (y & s1 & Hy & H).
  apply bind_Ok_inv in H as (rest & s2 & Hrest & H).
  inversion H; subst l' s2. clear H.
  rewrite keepAfter_eq in Hy.
  destruct (heap s !! x) as [ox|] eqn:Hx; [|done].
  inversion Hy; subst y s1. clear Hy.
  apply IH in Hrest as (-> & Hc & Hlen & Hh). cbn in Hc, Hlen, Hh.
  rewrite length_insert in Hlen.
  repeat split; auto.
  intros r o Hr.
  destruct (decide (r = x)) as [Heq|Hne].
  - subst r. rewrite Hx in Hr. inversion Hr; subst ox.
    rewrite (Hh x (kept startTime o)).
    2:{ apply list_lookup_insert_eq. by eapply lookup_lt_Some. }
    rewrite (bool_decide_eq_true_2 (x ∈ x :: l)) by apply list_elem_of_here.
    case_bool_decide; by rewrite ?kept_idemp.
  - rewrite (Hh r o) by (by rewrite list_lookup_insert_ne).
    f_equal. rewrite (bool_decide_ext (r ∈ x :: l) (r ∈ l)); [done|].
    rewrite elem_of_cons. tauto.
Qed.

Lemma map_st_keepAfter_total startTime l s :
  (forall r, r ∈ l -> (r < length (heap s))%nat) ->
  exists s', map_st (keepAfter startTime) l s = (Ok l, s').
Proof.
  revert s. induction l as [|x l IH]; intros s Hl.
  { by exists s. }
  cbn [map_st].
  destruct (lookup_lt_is_Some_2 (heap s) x) as [o Ho]; [apply Hl; set_solver|].
  pose proof (keepAfter_eq startTime x s) as Hk. rewrite Ho in Hk.
  rewrite (bind_Ok _ _ _ _ _ Hk).
  destruct (IH {| heap := <[x := kept startTime o]> (heap s);
                  cachedForecasts := cachedForecasts s |}) as [s' Hs'].
  { intros r Hr. cbn. rewrite length_insert. apply Hl. set_solver. }
  exists s'. by rewrite (bind_Ok _ _ _ _ _ Hs').
Qed.

(** ** What a query returns and what it leaves in the store *)

Lemma getForecasts_Ok bounds startTime s refs s' :
  getForecasts bounds startTime s = (Ok refs, s') ->
  refs = filter (fun r => in_polygon (heap s) (corners bounds) r = true)
                (cachedForecasts s) /\
  cachedForecasts s' = cachedForecasts s /\
  length (heap s') = length (heap s) /\
  forall r o, heap s !! r = Some o ->
    heap s' !! r =
    Some (if bool_decide (r ∈ refs)
          then kept (Moment.moment (default 0 startTime)) o else o).
Proof.
  unfold getForecasts. intros H.
  apply bind_Ok_inv in H as (cached & s1 & Hc & H).
  inversion Hc; subst cached s1. clear Hc.
  apply bind_Ok_inv in H as (sel & s1 & Hsel & H).
  apply filter_st_inBounds_Ok in Hsel as (-> & ->).
  apply bind_Ok_inv in H as (res & s2 & Hres & H).
  inversion H; subst res s2. clear H.
  apply map_st_keepAfter_Ok in Hres as (-> & ? & ? & ?). by repeat split.
Qed.

Lemma useDecimal_numeric v : numeric v = true -> exists x, Geolib.useDecimal v = Ok x.
Proof.
  destruct v as [|x]; [done|]. cbn. destruct (PrimFloat.is_nan x); [done|eauto].
Qed.

Lemma crosses_total p ci cj :
  numeric_point p = true -> numeric_point ci = true -> numeric_point cj = true ->
  exists b, Geolib.crosses p ci cj = Ok b.
Proof.
  unfold numeric_point. rewrite !andb_true_iff.
  intros [Hp1 Hp2] [Hi1 Hi2] [Hj1 Hj2].
  apply useDecimal_numeric in Hp1 as [? Hp1], Hp2 as [? Hp2], Hi1 as [? Hi1],
    Hi2 as [? Hi2], Hj1 as [? Hj1], Hj2 as [? Hj2].
  unfold Geolib.crosses, Geolib.and_then, Geolib.or_else, Geolib.le_r,
    Geolib.lt_r, Geolib.lat_of, Geolib.lng_of.
  rewrite Hp1, Hp2, Hi1, Hi2, Hj1, Hj2. cbn.
  repeat (match goal with |- context [if ?c then _ else _] => destruct c end; cbn);
    eauto.
Qed.

Lemma isPointInside_loop_total p cj rest c :
  numeric_point p = true -> numeric_point cj = true ->
  forallb numeric_point rest = true ->
  exists b, Geolib.isPointInside_loop p cj rest c = Ok b.
Proof.
  intros Hp. revert cj c. induction rest as [|ci rest IH]; intros cj c Hj Hr.
  { cbn. eauto. }
  cbn in Hr. apply andb_true_iff in Hr as [Hi Hr].
  destruct (crosses_total p ci cj Hp Hi Hj) as [x Hx].
  cbn. rewrite Hx. cbn. by apply IH.
Qed.

Lemma isPointInside_total p cs :
  numeric_point p = true -> forallb numeric_point cs = true ->
  exists b, Geolib.isPointInside p cs = Ok b.
Proof.
  intros Hp Hcs. unfold Geolib.isPointInside.
  destruct (last cs) as [cl|] eqn:Hl; [|eauto].
  apply isPointInside_loop_total; [done| |done].
  rewrite forallb_forall in Hcs. apply Hcs.
  apply list_elem_of_In. apply last_Some in Hl as [l' ->]. set_solver.
Qed.

Lemma corners_numeric b : numeric_box b = true -> forallb numeric_point (corners b) = true.
Proof.
  destruct b as [[swlat swlng] [nelat nelng]].
  unfold numeric_box, corners, numeric_point. cbn. rewrite !andb_true_iff.
  intros [[[-> ->] ->] ->]. done.
Qed.

Lemma filter_st_inBounds_total cs l s :
  forallb numeric_point cs = true ->
  forallb (fun r => match heap s !! r with
                    | Some o => numeric_point (point_of o)
                    | None => false
                    end) l = true ->
  exists l', filter_st (inBounds cs) l s = (Ok l', s).
Proof.
  intros Hcs. induction l as [|r l IH]; intros Hl.
  { by exists []. }
  cbn in Hl. apply andb_true_iff in Hl as [Hr Hl].
  destruct (IH Hl) as [rest Hrest].
  destruct (heap s !! r) as [o|] eqn:Ho; [|done].
  destruct (isPointInside_total _ _ Hr Hcs) as [b Hb].
  cbn [filter_st].
  assert (inBounds cs r s = (Ok b, s)) as Hi by (by rewrite inBounds_eq, Ho, Hb).
  rewrite (bind_Ok _ _ _ _ _ Hi), (bind_Ok _ _ _ _ _ Hrest). eauto.
Qed.

Lemma getForecasts_total bounds startTime s :
  numeric_box bounds = true -> cache_ok s = true ->
  exists refs s', getForecasts bounds startTime s = (Ok refs, s').
Proof.
  intros Hb Hs. unfold getForecasts.
  destruct (filter_st_inBounds_total (corners bounds) (cachedForecasts s) s)
    as [sel Hsel]; [by apply corners_numeric|done|].
  destruct (map_st_keepAfter_total (Moment.moment (default 0 startTime)) sel s)
    as [s' Hs'].
  { intros r Hr. apply filter_st_inBounds_Ok in Hsel as [_ ->].
    apply list_elem_of_filter in Hr as [_ Hr].
    unfold cache_ok in Hs. rewrite forallb_forall in Hs.
    apply list_elem_of_In, Hs in Hr.
    destruct (heap s !! r) eqn:E; [|done]. by eapply lookup_lt_Some. }
  exists sel, s'.
  assert (get_cachedForecasts s = (Ok (cachedForecasts s), s)) as Hg by done.
  rewrite (bind_Ok _ _ _ _ _ Hg), (bind_Ok _ _ _ _ _ Hsel), (bind_Ok _ _ _ _ _ Hs').
  done.
Qed.

(** ** C1: a query rewrites the snapshot *)

(** C1 (the code departs from the claim). On a snapshot of one location with
    items at 1000, 2000 and 3000, the query with start time 2000 returns
    reference 0, the snapshot's own object, and leaves that object with the
    item at 3000 only; the query without start time, which returns the three
    items on the untouched snapshot, then returns the item at 3000 only. *)
Theorem getForecasts_overwrites_cached_items :
  getForecasts box_60_24_61_25 None snapshot1 = (Ok [0%nat], snapshot1) /\
  getForecasts box_60_24_61_25 (Some 2000) snapshot1
    = (Ok [0%nat], snapshot1_from_2000) /\
  getForecasts box_60_24_61_25 None snapshot1_from_2000
    = (Ok [0%nat], snapshot1_from_2000) /\
  heap snapshot1_from_2000 <> heap snapshot1.
Proof. repeat split; by vm_compute. Qed.

(** ** C10: the result follows the order of the snapshot *)

(** C10. Whenever a query returns, the references it returns are a
    subsequence of [cachedForecasts] as it was when the query started: the
    selected locations, in snapshot order. *)
Theorem getForecasts_keeps_snapshot_order bounds startTime s refs s' :
  getForecasts bounds startTime s = (Ok refs, s') ->
  refs `sublist_of` cachedForecasts s.
Proof.
  intros H. apply getForecasts_Ok in H as (-> & _). apply sublist_filter.
Qed.

(** On [snapshot3] the box (60, 24)-(61, 25) selects the first and the third
    location, in that order. *)
Lemma getForecasts_keeps_snapshot_order_witness :
  getForecasts box_60_24_61_25 (Some 0) snapshot3 = (Ok [0%nat; 2%nat], snapshot3) /\
  [0%nat; 2%nat] `sublist_of` cachedForecasts snapshot3.
Proof.
  assert (getForecasts box_60_24_61_25 (Some 0) snapshot3
          = (Ok [0%nat; 2%nat], snapshot3)) as H by (vm_compute; reflexivity).
  split; [exact H|].
  exact (getForecasts_keeps_snapshot_order box_60_24_61_25 (Some 0) snapshot3
           [0%nat; 2%nat] snapshot3 H).
Defined.

(** ** C5: the time filter *)

(** C5 (as stated, refuted). Without a start time the filter compares with
    the epoch, and an item dated at the epoch is not after it: the location
    is returned with no item left. *)
Lemma getForecasts_default_drops_epoch_item :
  heap snapshot_epoch = [located 60.5 24.5 [0]] /\
  getForecasts box_60_24_61_25 None snapshot_epoch
    = (Ok [0%nat], {| heap := [located 60.5 24.5 []]; cachedForecasts := [0%nat] |}).
Proof. split; by vm_compute. Qed.

(** C5 (amended). Whenever a query returns, each returned location is left
    with exactly the items it held before the call whose time is strictly
    greater than the start time, in their order, the start time and the
    item's time both being valid dates (at most 8.64e15 milliseconds away
    from the epoch): an item whose time is not a valid date is dropped, and
    a start time that is not a valid date drops every item. An omitted start
    time is the epoch, 0, so the items kept are those dated strictly after
    the epoch. *)
Theorem getForecasts_items_strictly_after bounds startTime s refs s' r o :
  getForecasts bounds startTime s = (Ok refs, s') ->
  r ∈ refs ->
  heap s !! r = Some o ->
  heap s' !! r =
  Some {| lat := lat o; lng := lng o;
          items :=
            Some (filter (fun it =>
                            in_Date_range (default 0 startTime) /\
                            in_Date_range (time it) /\
                            default 0 startTime < time it)
                         (default [] (items o))) |}.
Proof.
  intros H Hr Ho. apply getForecasts_Ok in H as (_ & _ & _ & Hh).
  rewrite (Hh r o Ho), bool_decide_eq_true_2 by done.
  unfold kept. by rewrite itemsAfter_spec.
Qed.

(** Items at t0 < t1 < t2, here 1000, 2000 and 3000: the query from t1
    leaves the item at t2. *)
Lemma getForecasts_items_strictly_after_witness :
  getForecasts box_60_24_61_25 (Some 2000) snapshot1
    = (Ok [0%nat], snapshot1_from_2000) /\
  heap snapshot1_from_2000 !! 0%nat = Some (located 60.5 24.5 [3000]).
Proof.
  assert (getForecasts box_60_24_61_25 (Some 2000) snapshot1
          = (Ok [0%nat], snapshot1_from_2000)) as H by (vm_compute; reflexivity).
  split; [exact H|].
  exact (getForecasts_items_strictly_after box_60_24_61_25 (Some 2000)
           snapshot1 [0%nat] snapshot1_from_2000 0%nat
           (located 60.5 24.5 [1000; 2000; 3000])
           H ltac:(apply list_elem_of_here) eq_refl).
Defined.

(** ** Binary64 facts *)

Lemma SFcompare_key f g :
  f <> S754_nan -> g <> S754_nan ->
  match SFcompare f g with
  | Some Lt => key_lt f g
  | Some Eq => key_eq f g
  | Some Gt => key_lt g f
  | None => False
  end.
Proof.
  unfold key_lt, key_eq.
  destruct f as [s|s| |s m e], g as [s'|s'| |s' m' e']; try done;
    intros _ _; cbn; try destruct s; try destruct s'; cbn; try lia.
  - destruct (Z.compare_spec e e'); try lia.
    change (Pos.compare_cont Eq m m') with (Pos.compare m m').
    destruct (Pos.compare_spec m m'); cbn; lia.
  - destruct (Z.compare_spec e e'); try lia.
    change (Pos.compare_cont Eq m m') with (Pos.compare m m').
    destruct (Pos.compare_spec m m'); cbn; lia.
Qed.

Lemma is_nan_Prim2SF x : PrimFloat.is_nan x = false <-> Prim2SF x <> S754_nan.
Proof.
  unfold PrimFloat.is_nan. rewrite FloatAxioms.eqb_spec. unfold SFeqb.
  pose proof (SFcompare_key (Prim2SF x) (Prim2SF x)) as H.
  destruct (Prim2SF x) as [s|s| |s m e] eqn:E; cbn; try done.
  - cbn in H. destruct s; done.
  - cbn in H. specialize (H ltac:(done) ltac:(done)).
    unfold key_lt in H.
    destruct s; destruct (e ?= e); destruct (Pos.compare_cont Eq m m); cbn in *;
      try done; lia.
Qed.

Section Order.

Variables x y : float.
Hypothesis Hx : PrimFloat.is_nan x = false.
Hypothesis Hy : PrimFloat.is_nan y = false.

Lemma ltb_key : (x <? y)%float = true <-> key_lt (Prim2SF x) (Prim2SF y).
Proof.
  rewrite FloatAxioms.ltb_spec. unfold SFltb.
  apply is_nan_Prim2SF in Hx, Hy.
  pose proof (SFcompare_key _ _ Hx Hy) as H.
  pose proof (SFcompare_key _ _ Hy Hx) as H'.
  unfold key_lt, key_eq in *.
  destruct (SFcompare (Prim2SF x) (Prim2SF y)) as [[]|]; split; try done; lia.
Qed.

Lemma leb_key :
  (x <=? y)%float = true <->
  key_lt (Prim2SF x) (Prim2SF y) \/ key_eq (Prim2SF x) (Prim2SF y).
Proof.
  rewrite FloatAxioms.leb_spec. unfold SFleb.
  apply is_nan_Prim2SF in Hx, Hy.
  pose proof (SFcompare_key _ _ Hx Hy) as H.
  unfold key_lt, key_eq in *.
  destruct (SFcompare (Prim2SF x) (Prim2SF y)) as [[]|]; split; try done;
    try tauto; lia.
Qed.

End Order.

(** [decimal] changes nothing but the sign of a zero. *)
Lemma Prim2SF_decimal x :
  PrimFloat.is_nan x = false ->
  Prim2SF (decimal x) =
  match Prim2SF x with
  | S754_zero _ => S754_zero false
  | f => f
  end.
Proof.
  intros Hx. unfold decimal, PrimFloat.is_zero. rewrite FloatAxioms.eqb_spec.
  change (Prim2SF 0%float) with (S754_zero false).
  apply is_nan_Prim2SF in Hx.
  destruct (Prim2SF x) as [s|s| |s m e] eqn:E; cbn; try done.
  - destruct s; done.
  - destruct s; by rewrite E.
Qed.

Lemma finiteb_not_nan x : finiteb x = true -> PrimFloat.is_nan x = false.
Proof.
  unfold finiteb. intros H. apply is_nan_Prim2SF. by destruct (Prim2SF x).
Qed.

Lemma ltb_decimal x y :
  PrimFloat.is_nan x = false -> PrimFloat.is_nan y = false ->
  (decimal x <? decimal y)%float = (x <? y)%float.
Proof.
  intros Hx Hy. rewrite !FloatAxioms.ltb_spec, !Prim2SF_decimal by done.
  apply is_nan_Prim2SF in Hx, Hy.
  by destruct (Prim2SF x) as [[]|[]| |[] ? ?], (Prim2SF y) as [[]|[]| |[] ? ?].
Qed.

Lemma leb_decimal x y :
  PrimFloat.is_nan x = false -> PrimFloat.is_nan y = false ->
  (decimal x <=? decimal y)%float = (x <=? y)%float.
Proof.
  intros Hx Hy. rewrite !FloatAxioms.leb_spec, !Prim2SF_decimal by done.
  apply is_nan_Prim2SF in Hx, Hy.
  by destruct (Prim2SF x) as [[]|[]| |[] ? ?], (Prim2SF y) as [[]|[]| |[] ? ?].
Qed.

(** The difference of two numbers is of the same class (zero, finite,
    infinite, NaN) whether or not [decimal] is applied to them first. *)
Lemma sub_decimal_class x y :
  PrimFloat.is_nan x = false -> PrimFloat.is_nan y = false ->
  finiteb (decimal x - decimal y) = finiteb (x - y) /\
  nonzerob (decimal x - decimal y) = nonzerob (x - y).
Proof.
  intros Hx Hy. unfold finiteb, nonzerob.
  rewrite !FloatAxioms.sub_spec, !Prim2SF_decimal by done.
  apply is_nan_Prim2SF in Hx, Hy.
  by destruct (Prim2SF x) as [[]|[]| |[] ? ?], (Prim2SF y) as [[]|[]| |[] ? ?].
Qed.

(** On an edge of constant latitude [a] the latitude of the edge at any
    longitude is [a]: [(a - a) * (y - b) / (d - b) + a], when [y - b] does
    not overflow and [d - b] is not zero. *)
Lemma constant_latitude_edge a y b d :
  finiteb a = true ->
  finiteb (decimal y - decimal b) = true ->
  nonzerob (decimal d - decimal b) = true ->
  ((decimal a - decimal a) * (decimal y - decimal b) / (decimal d - decimal b)
     + decimal a)%float = decimal a.
Proof.
  intros Ha Hw Hv. apply Prim2SF_inj.
  rewrite FloatAxioms.add_spec, FloatAxioms.div_spec, FloatAxioms.mul_spec.
  unfold finiteb in Hw. unfold nonzerob in Hv.
  destruct (Prim2SF (decimal y - decimal b)) as [sw|?| |sw mw ew]; try done;
    destruct (Prim2SF (decimal d - decimal b)) as [?|sv| |sv mv ev]; try done;
    rewrite FloatAxioms.sub_spec, Prim2SF_decimal by (by apply finiteb_not_nan);
    unfold finiteb in Ha;
    destruct (Prim2SF a) as [sa|?| |sa ma ea]; try done;
    unfold SF64add, SF64div, SF64mul, SF64sub, SFsub;
    rewrite ?Z.sub_diag; cbn;
    repeat match goal with |- context [xorb ?u ?v] => destruct u, v; cbn end;
    done.
Qed.

(** ** The containment test on a rectangle *)

Lemma useDecimal_Num x :
  PrimFloat.is_nan x = false -> Geolib.useDecimal (JS.Num x) = Ok (decimal x).
Proof. intros H. unfold Geolib.useDecimal, decimal. by rewrite H. Qed.

Lemma crosses_Num px py ix iy jx jy :
  PrimFloat.is_nan px = false -> PrimFloat.is_nan py = false ->
  PrimFloat.is_nan ix = false -> PrimFloat.is_nan iy = false ->
  PrimFloat.is_nan jx = false -> PrimFloat.is_nan jy = false ->
  Geolib.crosses (point px py) (point ix iy) (point jx jy) =
  Ok (((iy <=? py) && (py <? jy) || (jy <=? py) && (py <? iy)) &&
      (decimal px <? (decimal jx - decimal ix) * (decimal py - decimal iy)
                       / (decimal jy - decimal iy) + decimal ix))%float.
Proof.
  intros Hpx Hpy Hix Hiy Hjx Hjy.
  unfold Geolib.crosses, Geolib.and_then, Geolib.or_else, Geolib.le_r,
    Geolib.lt_r, Geolib.lat_of, Geolib.lng_of, point.
  cbn [Geolib.latitude Geolib.longitude].
  rewrite !useDecimal_Num by done. cbn [mbind result_bind].
  rewrite !leb_decimal, !ltb_decimal by done.
  by destruct (iy <=? py)%float, (py <? jy)%float, (jy <=? py)%float,
    (py <? iy)%float.
Qed.

Lemma leb_ltb_absurd b y :
  PrimFloat.is_nan b = false -> PrimFloat.is_nan y = false ->
  ((b <=? y) && (y <? b))%float = false.
Proof.
  intros Hb Hy. apply andb_false_iff.
  destruct (b <=? y)%float eqn:E1; [|by left]. right.
  destruct (y <? b)%float eqn:E2; [|done]. exfalso.
  apply (leb_key _ _ Hb Hy) in E1. apply (ltb_key _ _ Hy Hb) in E2.
  unfold key_lt, key_eq in *. lia.
Qed.

(** The test on the polygon of a box with corners (a, b) and (c, d): the
    longitude is between [b] and [d], the lower of them included, and the
    latitude is below exactly one of [a] and [c]. *)
Lemma isPointInside_box a b c d x y :
  finiteb a = true -> finiteb b = true -> finiteb c = true -> finiteb d = true ->
  finiteb x = true -> finiteb y = true ->
  finiteb (y - b) = true -> finiteb (y - d) = true ->
  nonzerob (d - b) = true -> nonzerob (b - d) = true ->
  Geolib.isPointInside (point x y) (corners (box a b c d)) =
  Ok (((b <=? y) && (y <? d) || (d <=? y) && (y <? b)) &&
      xorb (x <? a) (x <? c))%float.
Proof.
  intros Ha Hb Hc Hd Hx Hy Hyb Hyd Hdb Hbd.
  pose proof (finiteb_not_nan _ Ha). pose proof (finiteb_not_nan _ Hb).
  pose proof (finiteb_not_nan _ Hc). pose proof (finiteb_not_nan _ Hd).
  pose proof (finiteb_not_nan _ Hx). pose proof (finiteb_not_nan _ Hy).
  unfold Geolib.isPointInside, corners, box. cbn [last Bounds.swCorner
    Bounds.neCorner Bounds.lat Bounds.lng Geolib.isPointInside_loop].
  change {| Geolib.latitude := JS.Num ?u; Geolib.longitude := JS.Num ?v |}
    with (point u v).
  cbn [Geolib.isPointInside_loop].
  rewrite !crosses_Num by done. cbn [mbind result_bind].
  rewrite !leb_ltb_absurd by done. cbn [orb andb].
  destruct (sub_decimal_class y b) as [Eyb _]; [done..|].
  destruct (sub_decimal_class y d) as [Eyd _]; [done..|].
  destruct (sub_decimal_class d b) as [_ Edb]; [done..|].
  destruct (sub_decimal_class b d) as [_ Ebd]; [done..|].
  rewrite (constant_latitude_edge a y b d), (constant_latitude_edge c y d b)
    by congruence.
  rewrite !ltb_decimal by done.
  by destruct (b <=? y)%float, (y <? d)%float, (d <=? y)%float, (y <? b)%float,
    (x <? a)%float, (x <? c)%float.
Qed.

(** Case analysis on the float comparisons of the goal, each case with the
    order of the keys it stands for. *)
Ltac float_order :=
  repeat match goal with
  | |- context [(?u <? ?v)%float] =>
      let E := fresh "E" in destruct (u <? v)%float eqn:E
  | |- context [(?u <=? ?v)%float] =>
      let E := fresh "E" in destruct (u <=? v)%float eqn:E
  end;
  repeat match goal with
  | E : (_ <? _)%float = false |- _ => rewrite <- not_true_iff_false in E
  | E : (_ <=? _)%float = false |- _ => rewrite <- not_true_iff_false in E
  end;
  repeat match goal with
  | E : context [(?u <? ?v)%float = true] |- _ => rewrite (ltb_key u v) in E by done
  | E : context [(?u <=? ?v)%float = true] |- _ => rewrite (leb_key u v) in E by done
  end;
  unfold key_lt, key_eq in *.

(** Between two bounds in order, [lower <= v < upper] is all that the two
    tests on [v] of the containment test can say. *)
Lemma between_ordered lower upper v :
  PrimFloat.is_nan lower = false -> PrimFloat.is_nan upper = false ->
  PrimFloat.is_nan v = false ->
  (lower <=? upper)%float = true ->
  ((upper <=? v) && (v <? lower) = false /\
   xorb (v <? lower) (v <? upper) = (lower <=? v) && (v <? upper))%float.
Proof.
  intros Hl Hu Hv Hlu. split; float_order; cbn; try done; exfalso; lia.
Qed.

Lemma isPointInside_ordered_box a b c d x y :
  finiteb a = true -> finiteb b = true -> finiteb c = true -> finiteb d = true ->
  finiteb x = true -> finiteb y = true ->
  finiteb (y - b) = true -> finiteb (y - d) = true ->
  nonzerob (d - b) = true -> nonzerob (b - d) = true ->
  (a <=? c)%float = true -> (b <=? d)%float = true ->
  Geolib.isPointInside (point x y) (corners (box a b c d)) = Ok (in_box a b c d x y).
Proof.
  intros Ha Hb Hc Hd Hx Hy Hyb Hyd Hdb Hbd Hac Hbd'.
  rewrite isPointInside_box by done. unfold in_box.
  destruct (between_ordered a c x) as [_ ->]; try (by apply finiteb_not_nan); [done|].
  destruct (between_ordered b d y) as [-> _]; try (by apply finiteb_not_nan); [done|].
  by rewrite orb_false_r.
Qed.

Lemma cache_in_reach_ok a b c d s :
  box_in_reach a b c d = true -> cache_in_reach b d s = true ->
  numeric_box (box a b c d) = true /\ cache_ok s = true.
Proof.
  unfold box_in_reach, cache_in_reach, numeric_box, cache_ok, box, numeric_point.
  rewrite !andb_true_iff. intros [[[[[Ha Hb] Hc] Hd] _] _] Hs. cbn.
  rewrite !(finiteb_not_nan _ Ha), !(finiteb_not_nan _ Hb),
    !(finiteb_not_nan _ Hc), !(finiteb_not_nan _ Hd). split; [done|].
  rewrite forallb_forall in Hs |- *. intros r Hr. specialize (Hs r Hr).
  destruct (heap s !! r) as [o|]; [|done].
  unfold location_in_reach in Hs. rewrite !andb_true_iff in Hs.
  destruct Hs as [[[Hx Hy] _] _]. cbn.
  by rewrite (finiteb_not_nan _ Hx), (finiteb_not_nan _ Hy).
Qed.

Lemma in_polygon_box a b c d s r :
  box_in_reach a b c d = true -> cache_in_reach b d s = true ->
  r ∈ cachedForecasts s ->
  exists o, heap s !! r = Some o /\
    Geolib.isPointInside (point_of o) (corners (box a b c d)) =
    Ok (((b <=? lng o) && (lng o <? d) || (d <=? lng o) && (lng o <? b)) &&
        xorb (lat o <? a) (lat o <? c))%float.
Proof.
  unfold box_in_reach, cache_in_reach. rewrite !andb_true_iff, forallb_forall.
  intros [[[[[Ha Hb] Hc] Hd] Hdb] Hbd] Hs Hr.
  apply list_elem_of_In, Hs in Hr.
  destruct (heap s !! r) as [o|]; [|done]. exists o. split; [done|].
  unfold location_in_reach in Hr. rewrite !andb_true_iff in Hr.
  destruct Hr as [[[Hx Hy] Hyb] Hyd].
  by apply (isPointInside_box a b c d (lat o) (lng o)).
Qed.

Lemma filter_st_inBounds_ext cs1 cs2 l s :
  (forall r, r ∈ l -> inBounds cs1 r s = inBounds cs2 r s) ->
  filter_st (inBounds cs1) l s = filter_st (inBounds cs2) l s.
Proof.
  induction l as [|r l IH]; intros H; [done|].
  cbn [filter_st]. unfold bind at 1 3.
  rewrite (H r) by apply list_elem_of_here.
  rewrite inBounds_eq.
  destruct (match heap s !! r with Some _ => _ | None => _ end) as [b|e]; [|done].
  unfold bind. rewrite IH; [done|].
  intros r' Hr'. apply H. by apply list_elem_of_further.
Qed.

Lemma getForecasts_ext bounds1 bounds2 startTime s :
  (forall r, r ∈ cachedForecasts s ->
     inBounds (corners bounds1) r s = inBounds (corners bounds2) r s) ->
  getForecasts bounds1 startTime s = getForecasts bounds2 startTime s.
Proof.
  intros H. unfold getForecasts.
  assert (get_cachedForecasts s = (Ok (cachedForecasts s), s)) as Hg by done.
  rewrite !(bind_Ok _ _ _ _ _ Hg).
  unfold bind at 1 3. by rewrite (filter_st_inBounds_ext _ _ _ _ H).
Qed.

(** ** C6: the spatial filter *)

(** C6. For a query box whose coordinates are numbers, on a cache whose
    locations have numbers for coordinates, the query returns, and the
    locations it returns are exactly the cached ones that the containment
    test puts inside the polygon (sw.lat, sw.lng), (ne.lat, sw.lng),
    (ne.lat, ne.lng), (sw.lat, ne.lng), the corners in that order. For a box
    with sw.lat <= ne.lat and sw.lng <= ne.lng, box and cache in reach of
    the arithmetic of the test, these are the locations with
    sw.lat <= lat < ne.lat and sw.lng <= lng < ne.lng. *)
Theorem getForecasts_selects_inside_polygon bounds startTime s :
  numeric_box bounds = true ->
  cache_ok s = true ->
  exists s',
    getForecasts bounds startTime s =
    (Ok (filter (fun r =>
           in_polygon (heap s)
             (let sw := Bounds.swCorner bounds in
              let ne := Bounds.neCorner bounds in
              [ {| Geolib.latitude := Bounds.lat sw; Geolib.longitude := Bounds.lng sw |};
                {| Geolib.latitude := Bounds.lat ne; Geolib.longitude := Bounds.lng sw |};
                {| Geolib.latitude := Bounds.lat ne; Geolib.longitude := Bounds.lng ne |};
                {| Geolib.latitude := Bounds.lat sw; Geolib.longitude := Bounds.lng ne |} ])
             r = true)
         (cachedForecasts s)), s') /\
    forall a b c d,
      bounds = box a b c d ->
      box_in_reach a b c d = true ->
      (a <=? c)%float = true -> (b <=? d)%float = true ->
      cache_in_reach b d s = true ->
      forall r, r ∈ cachedForecasts s ->
        in_polygon (heap s) (corners bounds) r = within a b c d (heap s) r.
Proof.
  intros Hb Hs.
  destruct (getForecasts_total bounds startTime s Hb Hs) as (refs & s' & H).
  exists s'. split.
  { rewrite H. f_equal. f_equal. by apply getForecasts_Ok in H as (-> & _). }
  intros a b c d -> Hbox Hac Hbd Hreach r Hr.
  destruct (in_polygon_box a b c d s r Hbox Hreach Hr) as (o & Ho & _).
  unfold in_polygon, within. rewrite Ho.
  unfold box_in_reach, cache_in_reach in *.
  rewrite !andb_true_iff in Hbox. destruct Hbox as [[[[[Ha Hb'] Hc] Hd] Hdb] Hbd'].
  rewrite forallb_forall in Hreach. apply list_elem_of_In, Hreach in Hr.
  rewrite Ho in Hr. unfold location_in_reach in Hr. rewrite !andb_true_iff in Hr.
  destruct Hr as [[[Hx Hy] Hyb] Hyd].
  change (point_of o) with (point (lat o) (lng o)).
  by rewrite isPointInside_ordered_box.
Qed.

(** Box sw = (60.0, 24.0), ne = (61.0, 25.0): of the cached points
    (60.5, 24.5), (62.0, 24.5) and (60.0, 24.0), the second is left out. *)
Lemma getForecasts_selects_inside_polygon_witness :
  (exists s', getForecasts box_60_24_61_25 None snapshot3 = (Ok [0%nat; 2%nat], s')) /\
  in_polygon (heap snapshot3) (corners box_60_24_61_25) 0%nat = true /\
  in_polygon (heap snapshot3) (corners box_60_24_61_25) 1%nat = false.
Proof.
  destruct (getForecasts_selects_inside_polygon box_60_24_61_25 None snapshot3)
    as (s' & H & Hin); [by vm_compute..|].
  split; [by exists s'|].
  assert (forall r, r ∈ cachedForecasts snapshot3 ->
            in_polygon (heap snapshot3) (corners box_60_24_61_25) r
            = within 60 24 61 25 (heap snapshot3) r) as Hw.
  { apply (Hin 60 24 61 25)%float; by vm_compute. }
  split.
  - rewrite Hw; [by vm_compute|]. apply list_elem_of_here.
  - rewrite Hw; [by vm_compute|]. apply list_elem_of_further, list_elem_of_here.
Defined.

(** ** C8: a box with swCorner.lat > neCorner.lat *)

(** C8 (as stated, refuted). The box sw = (61, 24), ne = (60, 25) has
    swCorner.lat > neCorner.lat, and the query returns the cached
    location (60.5, 24.5). *)
Lemma getForecasts_inverted_box_not_empty :
  lat_inverted box_61_24_60_25 = true /\
  getForecasts box_61_24_60_25 None snapshot1 = (Ok [0%nat], snapshot1).
Proof. split; by vm_compute. Qed.

(** C8 (amended). For a box with swCorner.lat > neCorner.lat, box and cache
    in reach of the arithmetic of the test, the query raises no error, and
    it returns, and leaves in the store, exactly what it does for the box
    with the two latitudes exchanged; that need not be nothing. *)
Theorem getForecasts_inverted_box_returns a b c d startTime s :
  lat_inverted (box a b c d) = true ->
  box_in_reach a b c d = true ->
  cache_in_reach b d s = true ->
  getForecasts (box a b c d) startTime s = getForecasts (box c b a d) startTime s /\
  exists refs s', getForecasts (box a b c d) startTime s = (Ok refs, s').
Proof.
  intros _ Hbox Hreach.
  destruct (cache_in_reach_ok a b c d s Hbox Hreach) as [Hn Hok].
  split; [|by apply getForecasts_total].
  assert (box_in_reach c b a d = true) as Hbox'.
  { unfold box_in_reach in *. rewrite !andb_true_iff in *. tauto. }
  apply getForecasts_ext.
  intros r Hr. rewrite !inBounds_eq.
  destruct (in_polygon_box a b c d s r Hbox Hreach Hr) as (o & Ho & H1).
  destruct (in_polygon_box c b a d s r Hbox' Hreach Hr) as (o' & Ho' & H2).
  rewrite Ho in Ho' |- *. inversion Ho'; subst o'.
  by rewrite H1, H2, xorb_comm.
Qed.

Lemma getForecasts_inverted_box_returns_witness :
  getForecasts box_61_24_60_25 (Some 2000) snapshot1
    = getForecasts box_60_24_61_25 (Some 2000) snapshot1 /\
  exists refs s',
    getForecasts box_61_24_60_25 (Some 2000) snapshot1 = (Ok refs, s').
Proof.
  exact (getForecasts_inverted_box_returns 61 24 60 25 (Some 2000) snapshot1
           ltac:(vm_compute; reflexivity) ltac:(vm_compute; reflexivity)
           ltac:(vm_compute; reflexivity)).
Defined.

(** ** C4: the grid *)

Lemma length_grid latitudes longitudes :
  length (grid latitudes longitudes) = (length latitudes * length longitudes)%nat.
Proof.
  unfold grid. induction latitudes as [|la l IH]; [done|].
  cbn. by rewrite length_app, length_map, IH.
Qed.

Lemma forEach_push_row la longitudes acc s :
  forEach longitudes (fun lng forecastLocations =>
      r <- alloc {| lat := la; lng := lng; items := None |} ;;
      ret (forecastLocations ++ [r])) acc s =
  (Ok (acc ++ seq (length (heap s)) (length longitudes)),
   {| heap := heap s ++ map (fun lo => {| lat := la; lng := lo; items := None |}) longitudes;
      cachedForecasts := cachedForecasts s |}).
Proof.
  revert acc s. induction longitudes as [|lo l IH]; intros acc s.
  { cbn. unfold ret. rewrite !app_nil_r. by destruct s. }
  cbn [forEach]. unfold bind at 1. unfold bind at 1, alloc at 1, ret at 1.
  rewrite IH. cbn [heap cachedForecasts length map seq].
  rewrite length_app, <- !app_assoc. cbn [length app].
  by rewrite Nat.add_1_r.
Qed.

Lemma forEach_push_grid latitudes longitudes acc s :
  forEach latitudes (fun lat forecastLocations =>
    forEach longitudes (fun lng forecastLocations =>
      r <- alloc {| lat := lat; lng := lng; items := None |} ;;
      ret (forecastLocations ++ [r])) forecastLocations) acc s =
  (Ok (acc ++ seq (length (heap s)) (length latitudes * length longitudes)),
   {| heap := heap s ++ grid latitudes longitudes;
      cachedForecasts := cachedForecasts s |}).
Proof.
  revert acc s. induction latitudes as [|la l IH]; intros acc s.
  { cbn. unfold ret. rewrite !app_nil_r. by destruct s. }
  cbn [forEach]. unfold bind at 1. rewrite forEach_push_row, IH.
  cbn [heap cachedForecasts]. unfold grid. cbn [map concat length].
  rewrite length_app, length_map, <- !app_assoc.
  by rewrite Nat.mul_succ_l,
    (Nat.add_comm (length l * length longitudes) (length longitudes)), seq_app.
Qed.

Lemma createForecastLocations_eq bounds latIncrement lngIncrement s :
  createForecastLocations bounds latIncrement lngIncrement s =
  match latitudes_of bounds latIncrement, longitudes_of bounds lngIncrement with
  | Ok latitudes, Ok longitudes =>
      (Ok (seq (length (heap s)) (length latitudes * length longitudes)),
       {| heap := heap s ++ grid latitudes longitudes;
          cachedForecasts := cachedForecasts s |})
  | Err e, _ => (Err e, s)
  | Ok _, Err e => (Err e, s)
  end.
Proof.
  unfold createForecastLocations, latitudes_of, longitudes_of.
  unfold bind at 1, lift at 1.
  destruct (map roundTo1Decimal <$> Lodash.range _ _ latIncrement) as [las|e]; [|done].
  unfold bind at 1, lift at 1.
  destruct (map roundTo1Decimal <$> Lodash.range _ _ lngIncrement) as [los|e]; [|done].
  by rewrite forEach_push_grid.
Qed.

Lemma length_range_fill n start step : length (Lodash.range_fill n start step) = n.
Proof. revert start. induction n as [|n IH]; intros start; cbn; by rewrite ?IH. Qed.

(** C4 (as stated, refuted). The latitude -0.25 is halfway between -0.3 and
    -0.2 ([-0.25 * 10] is exactly -2.5); rounding half away from zero gives
    -0.3, the grid holds -0.2. *)
Lemma createForecastLocations_rounds_tie_up :
  (-0.25 * 10 = -2.5)%float /\
  createForecastLocations (box (-0.25) 0 (-0.1) 0.5) 0.2 0.5 initial =
  (Ok [0%nat],
   {| heap := [ {| lat := -0.2; lng := 0; items := None |} ];
      cachedForecasts := [] |}).
Proof. split; by vm_compute. Qed.

(** In double arithmetic a range can reach its upper bound:
    (0.8 - 0.2) / 0.2 is 3.0000000000000004, so the range from 0.2 to 0.8 by
    0.2 holds four values, and the fourth rounds to 0.8. *)
Example range_reaches_upper_bound :
  latitudes_of (box 0.2 0 0.8 1) 0.2 = Ok [0.2; 0.4; 0.6; 0.8]%float.
Proof. by vm_compute. Qed.

(** C4 (amended). [createForecastLocations] fails when one of its two
    ranges does, and otherwise allocates, after the objects already in the
    heap, the cross product of its latitudes and longitudes, all longitudes
    for the first latitude, then all for the next: |latitudes| * |longitudes|
    new objects, returned in that order. A range starts at the lower bound
    and holds [max (ceil ((upper - lower) / step)) 0] values, each the
    previous one plus the step; every value is rounded by
    [Math.round(x * 10) / 10], a tie going towards +infinity (-0.25 to -0.2,
    0.25 to 0.3). From 0 to 1 by 0.2 the latitudes are 0, 0.2, 0.4, 0.6, 0.8. *)
Theorem createForecastLocations_cross_product :
  (forall bounds latIncrement lngIncrement s,
     match latitudes_of bounds latIncrement, longitudes_of bounds lngIncrement with
     | Ok latitudes, Ok longitudes =>
         createForecastLocations bounds latIncrement lngIncrement s =
         (Ok (seq (length (heap s)) (length latitudes * length longitudes)),
          {| heap := heap s ++
               concat (map (fun la =>
                         map (fun lo => {| lat := la; lng := lo; items := None |})
                             longitudes) latitudes);
             cachedForecasts := cachedForecasts s |})
     | Err e, _ | Ok _, Err e =>
         createForecastLocations bounds latIncrement lngIncrement s = (Err e, s)
     end) /\
  (forall lower upper step values,
     Lodash.range (JS.Num lower) (JS.Num upper) step = Ok values ->
     let step' := JS.or_zero step in
     JS.array_length ((JS.or_zero upper - JS.or_zero lower)
                        / (if PrimFloat.is_zero step' then 1 else step'))%float
       = Ok (length values) /\
     forall i x, values !! i = Some x ->
       (i = 0%nat /\ x = JS.or_zero lower) \/
       (exists i' x', i = S i' /\ values !! i' = Some x' /\ x = (x' + step')%float)) /\
  roundTo1Decimal (-0.25) = (-0.2)%float /\
  roundTo1Decimal 0.25 = 0.3%float /\
  (forall swLng neLng, latitudes_of (box 0 swLng 1 neLng) 0.2 = Ok [0; 0.2; 0.4; 0.6; 0.8]%float).
Proof.
  split; [|split; [|split; [|split]]].
  - intros. rewrite createForecastLocations_eq.
    destruct (latitudes_of _ _); [|done]. by destruct (longitudes_of _ _).
  - intros lower upper step values H. unfold Lodash.range in H. cbn in H.
    destruct (JS.array_length _) as [n|e] eqn:Hn; [|done].
    cbn in H. inversion H; subst values. clear H.
    rewrite length_range_fill. split; [done|].
    clear Hn. generalize (JS.or_zero lower) as start.
    induction n as [|n IH]; intros start i x Hi; [done|].
    destruct i as [|i]; cbn in Hi.
    + left. by inversion Hi.
    + right. destruct (IH _ _ _ Hi) as [[-> ->]|(i' & x' & -> & Hx' & ->)].
      * exists 0%nat, start. done.
      * exists (S i'), x'. done.
  - by vm_compute.
  - by vm_compute.
  - intros. by vm_compute.
Qed.

Lemma createForecastLocations_cross_product_witness :
  JS.array_length ((JS.or_zero 1 - JS.or_zero 0) / 0.2)%float = Ok 5%nat /\
  createForecastLocations (box 0 0 1 1) 0.2 0.5 initial =
  (Ok [0; 1; 2; 3; 4; 5; 6; 7; 8; 9]%nat,
   {| heap := grid [0; 0.2; 0.4; 0.6; 0.8]%float [0; 0.5]%float;
      cachedForecasts := [] |}).
Proof.
  split.
  - exact (proj1 (proj1 (proj2 createForecastLocations_cross_product)
                    0%float 1%float 0.2%float
                    [0; 0.2; 0.4; 0.6000000000000001; 0.8]%float
                    ltac:(vm_compute; reflexivity))).
  - exact (proj1 createForecastLocations_cross_product (box 0 0 1 1)
             0.2%float 0.5%float initial).
Defined.

(** ** C3: the bounds of a grid file *)

(** C3 (as stated, refuted). With three numeric tokens on the first line,
    [getGribBounds] returns a box whose fourth coordinate is undefined, and
    the refresh driven by it publishes a snapshot of six points; with a token
    that is no number it returns a box with NaN in that place. *)
Lemma getGribBounds_accepts_three_tokens :
  getGribBounds (fun _ => Ok "60 1 60.5") "hirlam.grb" =
    Ok {| Bounds.swCorner := {| Bounds.lat := JS.Num 60; Bounds.lng := JS.Num 1 |};
          Bounds.neCorner := {| Bounds.lat := JS.Num 60.5; Bounds.lng := JS.Undefined |} |} /\
  getGribBounds (fun _ => Ok "60 east 61 25") "hirlam.grb" =
    Ok {| Bounds.swCorner := {| Bounds.lat := JS.Num 60; Bounds.lng := JS.Num nan |};
          Bounds.neCorner := {| Bounds.lat := JS.Num 61; Bounds.lng := JS.Num 25 |} |} /\
  exists s',
    refreshFrom (fun _ => Ok "60 1 60.5") one_item 4 shuffled "hirlam.grb" initial
      = (Ok tt, s') /\
    cachedForecasts s' = [0; 1; 2; 3; 4; 5]%nat /\
    cachedForecasts s' <> cachedForecasts initial.
Proof.
  split; [by vm_compute|]. split; [by vm_compute|].
  eexists. split; [by vm_compute|]. split; by vm_compute.
Qed.

(** C3 (amended). [getGribBounds] fails exactly when the external call
    fails, with that failure, and a refresh driven by it then fails and
    leaves the store as it was. When the external call returns, whatever the
    first line holds (any string of code units below 256), [getGribBounds]
    returns a box: coordinate [i] is [parseFloat] of token [i] of the first
    line, trimmed of JavaScript's white space (the no-break space included)
    and split at single spaces (NaN for a token that is no number), and
    undefined when there are no more than [i] tokens. *)
Theorem getGribBounds_fails_only_with_the_tool gribGet gribFile :
  match gribGet ["-p"; boundsKeys; gribFile] with
  | Err e =>
      getGribBounds gribGet gribFile = Err e /\
      forall getItems cpus sched s,
        refreshFrom gribGet getItems cpus sched gribFile s = (Err e, s)
  | Ok output =>
      exists c0 c1 c2 c3,
        getGribBounds gribGet gribFile =
          Ok {| Bounds.swCorner := {| Bounds.lat := c0; Bounds.lng := c1 |};
                Bounds.neCorner := {| Bounds.lat := c2; Bounds.lng := c3 |} |} /\
        forall i c, [c0; c1; c2; c3] !! i = Some c ->
          match bounds_tokens output !! i with
          | Some token => c = JS.Num (JS.parseFloat token)
          | None => c = JS.Undefined
          end
  end.
Proof.
  destruct (gribGet _) as [output|e] eqn:Hg.
  - exists (at_index (map JS.parseFloat (bounds_tokens output)) 0),
           (at_index (map JS.parseFloat (bounds_tokens output)) 1),
           (at_index (map JS.parseFloat (bounds_tokens output)) 2),
           (at_index (map JS.parseFloat (bounds_tokens output)) 3).
    split.
    + unfold getGribBounds. by rewrite Hg.
    + intros i c Hi. unfold at_index in Hi.
      do 4 (destruct i as [|i]; [cbn in Hi; rewrite list_lookup_fmap in Hi;
        destruct (bounds_tokens output !! _); by inversion Hi|]).
      done.
  - split.
    + unfold getGribBounds. by rewrite Hg.
    + intros. unfold refreshFrom. apply bind_Err. unfold lift, getGribBounds.
      by rewrite Hg.
Qed.

(** ** The order in which the extractions settle *)

Lemma settle_order_Permutation pick n : forall step pending,
  length pending = n ->
  settle_order pick step n pending ≡ₚ pending.
Proof.
  induction n as [|n IH]; intros step pending Hlen.
  { destruct pending; [done|discriminate]. }
  cbn [settle_order].
  assert ((pick step mod length pending) < length pending)%nat as Hk.
  { apply Nat.mod_upper_bound. lia. }
  destruct (lookup_lt_is_Some_2 _ _ Hk) as [i Hi]. rewrite Hi.
  etrans; [|symmetry; apply (delete_Permutation pending _ i Hi)].
  constructor. apply IH. rewrite length_delete by eauto. lia.
Qed.

Lemma settle_order_complete (sched : schedule) concurrency n i :
  i ∈ settle_order (sched concurrency) 0 n (seq 0 n) <-> (i < n)%nat.
Proof.
  rewrite (settle_order_Permutation _ n 0 (seq 0 n)) by apply length_seq.
  rewrite elem_of_seq. lia.
Qed.

(** ** One extraction *)

Section Extraction.

Variable getForecastItemsFromGrib :
  string -> float -> float -> result (list ForecastItem).
Variable gribFile : string.

Lemma extractInto_eq location s :
  extractInto getForecastItemsFromGrib gribFile location s =
  match heap s !! location with
  | None => (Err TypeError, s)
  | Some o =>
      match getForecastItemsFromGrib gribFile (lat o) (lng o) with
      | Ok forecastItems =>
          (Ok location,
           {| heap := <[location := {| lat := lat o; lng := lng o;
                                       items := Some forecastItems |}]> (heap s);
              cachedForecasts := cachedForecasts s |})
      | Err e => (Err e, s)
      end
  end.
Proof.
  unfold extractInto, bind, deref, lift, assign, ret.
  destruct (heap s !! location) as [o|]; [|done].
  by destruct (getForecastItemsFromGrib _ _ _).
Qed.

Lemma after_refl s : after getForecastItemsFromGrib gribFile [] s s.
Proof. repeat split. intros r o ->. done. Qed.

(** Whatever the outcome, settling touches only the objects it maps over. *)
Lemma settle_frame locations order : forall results s res s',
  settle (extractInto getForecastItemsFromGrib gribFile) locations order results s
    = (res, s') ->
  cachedForecasts s' = cachedForecasts s /\
  length (heap s') = length (heap s) /\
  forall r, r ∉ locations -> heap s' !! r = heap s !! r.
Proof.
  induction order as [|i order IH]; intros results s res s' H.
  { cbn in H. inversion H; subst. done. }
  cbn [settle] in H.
  destruct (locations !! i) as [x|] eqn:Hx; [|by eapply IH].
  apply bind_inv in H as [(e & H & ->)|(b & s1 & H & Hrest)];
    rewrite extractInto_eq in H;
    destruct (heap s !! x) as [o|] eqn:Ho;
    try destruct (getForecastItemsFromGrib _ _ _) as [its|e'];
    inversion H; subst; try done.
  apply IH in Hrest as (Hc & Hl & Hh). cbn in Hc, Hl, Hh.
  rewrite length_insert in Hl. repeat split; try done.
  intros r Hr. rewrite Hh by done. apply list_lookup_insert_ne.
  intros ->. apply Hr. by eapply list_elem_of_lookup_2.
Qed.

(** When every extraction is fulfilled, settling in any order fills the
    result array at the settled indices and extracts the objects behind
    them. *)
Lemma settle_fulfilled locations s0 order : forall settled results s,
  (forall r, r ∈ locations -> exists o its,
      heap s0 !! r = Some o /\
      getForecastItemsFromGrib gribFile (lat o) (lng o) = Ok its) ->
  length results = length locations ->
  after getForecastItemsFromGrib gribFile settled s0 s ->
  exists results' settled' s',
    settle (extractInto getForecastItemsFromGrib gribFile) locations order results s
      = (Ok results', s') /\
    length results' = length locations /\
    (forall i, results' !! i =
       if bool_decide (i ∈ order) then Some <$> locations !! i else results !! i) /\
    after getForecastItemsFromGrib gribFile settled' s0 s' /\
    (forall r, r ∈ settled' <->
       r ∈ settled \/ exists i, i ∈ order /\ locations !! i = Some r).
Proof.
  induction order as [|i order IH]; intros settled results s Hok Hlen Haft.
  { exists results, settled, s. cbn. split; [done|]. split; [done|].
    split; [done|]. split; [done|]. intros r. split; [by left|].
    intros [?|(i & Hi & _)]; [done|]. by apply elem_of_nil in Hi. }
  cbn [settle].
  destruct (locations !! i) as [x|] eqn:Hx.
  - destruct (Hok x) as (o & its & Ho & Hits); [by eapply list_elem_of_lookup_2|].
    destruct Haft as (Hc & Hl & Hh).
    pose proof (Hh x o Ho) as Hcur.
    assert (extracted getForecastItemsFromGrib gribFile o = {| lat := lat o; lng := lng o; items := Some its |})
      as Hext by (unfold extracted; by rewrite Hits).
    set (s1 := {| heap := <[x := extracted getForecastItemsFromGrib gribFile o]> (heap s);
                  cachedForecasts := cachedForecasts s |}).
    assert (extractInto getForecastItemsFromGrib gribFile x s = (Ok x, s1)) as Hstep.
    { rewrite extractInto_eq, Hcur. unfold s1.
      case_bool_decide; rewrite ?Hext; cbn [lat lng]; by rewrite Hits. }
    rewrite (bind_Ok _ _ _ _ _ Hstep).
    destruct (IH (x :: settled) (<[i := Some x]> results) s1 Hok) as
      (results' & settled' & s' & Hs & Hlen' & Hres & Haft' & Hdone').
    { by rewrite length_insert. }
    { repeat split; cbn; [done|by rewrite length_insert|].
      intros r o' Hr. destruct (decide (r = x)) as [->|Hne].
      - rewrite Ho in Hr. inversion Hr; subst o'.
        rewrite list_lookup_insert_eq by (rewrite Hl; by eapply lookup_lt_Some).
        by rewrite bool_decide_eq_true_2 by apply list_elem_of_here.
      - rewrite list_lookup_insert_ne, (Hh r o' Hr) by done.
        f_equal. rewrite (bool_decide_ext (r ∈ x :: settled) (r ∈ settled)); [done|].
        rewrite elem_of_cons. tauto. }
    exists results', settled', s'.
    split; [done|]. split; [done|]. split; [|split; [done|intros r; split]].
    + intros j. rewrite Hres.
      destruct (decide (j = i)) as [->|Hne].
      * rewrite (bool_decide_eq_true_2 (i ∈ i :: order)) by apply list_elem_of_here.
        destruct (bool_decide (i ∈ order)); [done|].
        rewrite Hx. cbn. apply list_lookup_insert_eq.
        rewrite Hlen. by eapply lookup_lt_Some.
      * rewrite list_lookup_insert_ne by done.
        rewrite (bool_decide_ext (j ∈ i :: order) (j ∈ order)); [done|].
        rewrite elem_of_cons. tauto.
    + intros Hr. apply Hdone' in Hr as [Hr|(j & Hj & Hjr)].
      * apply elem_of_cons in Hr as [->|Hr]; [|by left].
        right. exists i. split; [apply list_elem_of_here|done].
      * right. exists j. split; [by apply list_elem_of_further|done].
    + intros [Hr|(j & Hj & Hjr)]; apply Hdone'.
      * left. by apply list_elem_of_further.
      * apply elem_of_cons in Hj as [->|Hj].
        -- left. rewrite Hx in Hjr. inversion Hjr. apply list_elem_of_here.
        -- right. eauto.
  - destruct (IH settled results s Hok Hlen Haft) as
      (results' & settled' & s' & Hs & Hlen' & Hres & Haft' & Hdone').
    exists results', settled', s'.
    split; [done|]. split; [done|]. split; [|split; [done|intros r; split]].
    + intros j. rewrite Hres.
      destruct (decide (j = i)) as [->|Hne].
      * rewrite (bool_decide_eq_true_2 (i ∈ i :: order)) by apply list_elem_of_here.
        destruct (bool_decide (i ∈ order)); [done|]. rewrite Hx. cbn.
        apply lookup_ge_None_2. rewrite Hlen. by apply lookup_ge_None_1.
      * rewrite (bool_decide_ext (j ∈ i :: order) (j ∈ order)); [done|].
        rewrite elem_of_cons. tauto.
    + intros Hr. apply Hdone' in Hr as [Hr|(j & Hj & Hjr)]; [by left|].
      right. exists j. split; [by apply list_elem_of_further|done].
    + intros [Hr|(j & Hj & Hjr)]; apply Hdone'; [by left|].
      apply elem_of_cons in Hj as [->|Hj]; [congruence|]. right. eauto.
Qed.

(** A rejected extraction that is still to settle rejects the whole. *)
Lemma settle_rejected locations order : forall results s i r o e,
  i ∈ order ->
  locations !! i = Some r ->
  heap s !! r = Some o ->
  getForecastItemsFromGrib gribFile (lat o) (lng o) = Err e ->
  exists e' s',
    settle (extractInto getForecastItemsFromGrib gribFile) locations order results s
      = (Err e', s').
Proof.
  induction order as [|j order IH]; intros results s i r o e Hi Hr Ho He.
  { by apply elem_of_nil in Hi. }
  cbn [settle].
  destruct (locations !! j) as [x|] eqn:Hx.
  - destruct (extractInto getForecastItemsFromGrib gribFile x s) as [[y|e1] s1] eqn:Hstep.
    + rewrite (bind_Ok _ _ _ _ _ Hstep).
      rewrite extractInto_eq in Hstep.
      destruct (heap s !! x) as [ox|] eqn:Hox; [|done].
      destruct (getForecastItemsFromGrib gribFile (lat ox) (lng ox)) as [its|] eqn:Hits;
        [|done].
      inversion Hstep; subst y s1. clear Hstep.
      assert (r <> x) as Hne by (intros ->; congruence).
      apply elem_of_cons in Hi as [->|Hi]; [congruence|].
      eapply (IH _ _ i r o e); try done.
      cbn. by rewrite list_lookup_insert_ne.
    + rewrite (bind_Err _ _ _ _ _ Hstep). eauto.
  - apply elem_of_cons in Hi as [->|Hi]; [congruence|]. by eapply IH.
Qed.

End Extraction.

(** ** [Promise.map] over the extractions *)

Section FanOut.

Variable getForecastItemsFromGrib :
  string -> float -> float -> result (list ForecastItem).
Variable CPU_COUNT : nat.
Variable sched : schedule.
Variable gribFile : string.

Lemma getForecastsFromGrib_fulfilled locations s :
  (forall r, r ∈ locations -> exists o its,
      heap s !! r = Some o /\
      getForecastItemsFromGrib gribFile (lat o) (lng o) = Ok its) ->
  exists s',
    getForecastsFromGrib getForecastItemsFromGrib CPU_COUNT sched locations gribFile s
      = (Ok locations, s') /\
    cachedForecasts s' = cachedForecasts s /\
    length (heap s') = length (heap s) /\
    forall r o, heap s !! r = Some o ->
      heap s' !! r =
      Some (if bool_decide (r ∈ locations)
            then extracted getForecastItemsFromGrib gribFile o else o).
Proof.
  intros Hok. unfold getForecastsFromGrib, Promise_map.
  set (n := length locations).
  set (order := settle_order (sched CPU_COUNT) 0 n (seq 0 n)).
  destruct (settle_fulfilled getForecastItemsFromGrib gribFile locations s order
              [] (replicate n None) s Hok) as
    (results' & settled' & s' & Hs & Hlen & Hres & (Hc & Hl & Hh) & Hset).
  { apply length_replicate. }
  { apply after_refl. }
  assert (results' = Some <$> locations) as ->.
  { apply list_eq. intros i. rewrite Hres, list_lookup_fmap.
    destruct (decide (i < n)%nat) as [Hi|Hi].
    - rewrite bool_decide_eq_true_2; [done|]. by apply settle_order_complete.
    - rewrite bool_decide_eq_false_2.
      2:{ intros Hin. by apply settle_order_complete in Hin. }
      rewrite (lookup_ge_None_2 (replicate n None) i)
        by (rewrite length_replicate; lia).
      rewrite (lookup_ge_None_2 locations i) by (fold n; lia). done. }
  exists s'. split.
  { rewrite (bind_Ok _ _ _ _ _ Hs). unfold lift.
    by rewrite (mapM_fmap_Some id Some locations). }
  repeat split; try done.
  intros r o Hr. rewrite (Hh r o Hr). f_equal.
  rewrite (bool_decide_ext (r ∈ settled') (r ∈ locations)); [done|].
  rewrite Hset. split.
  - intros [Hin|(i & _ & Hi)]; [by apply elem_of_nil in Hin|].
    by eapply list_elem_of_lookup_2.
  - intros Hin. right. apply list_elem_of_lookup_1 in Hin as [i Hi].
    exists i. split; [|done]. apply settle_order_complete.
    by eapply lookup_lt_Some.
Qed.

Lemma getForecastsFromGrib_rejected locations s r o e :
  r ∈ locations ->
  heap s !! r = Some o ->
  getForecastItemsFromGrib gribFile (lat o) (lng o) = Err e ->
  exists e' s',
    getForecastsFromGrib getForecastItemsFromGrib CPU_COUNT sched locations gribFile s
      = (Err e', s').
Proof.
  intros Hr Ho He. apply list_elem_of_lookup_1 in Hr as [i Hi].
  destruct (settle_rejected getForecastItemsFromGrib gribFile locations
              (settle_order (sched CPU_COUNT) 0 (length locations)
                 (seq 0 (length locations)))
              (replicate (length locations) None) s i r o e) as (e' & s' & Hs);
    try done.
  { apply settle_order_complete. by eapply lookup_lt_Some. }
  exists e', s'. unfold getForecastsFromGrib, Promise_map.
  by rewrite (bind_Err _ _ _ _ _ Hs).
Qed.

Lemma getForecastsFromGrib_frame locations s res s' :
  getForecastsFromGrib getForecastItemsFromGrib CPU_COUNT sched locations gribFile s
    = (res, s') ->
  cachedForecasts s' = cachedForecasts s /\
  length (heap s') = length (heap s) /\
  forall r, r ∉ locations -> heap s' !! r = heap s !! r.
Proof.
  unfold getForecastsFromGrib, Promise_map. intros H.
  apply bind_inv in H as [(e & H & _)|(results & s1 & H & Hl)].
  - by eapply settle_frame.
  - unfold lift in Hl. inversion Hl; subst s1. by eapply settle_frame.
Qed.

End FanOut.

(** ** C7: the extraction keeps the input order *)

Lemma all_fulfilled_spec getItems gribFile locations s :
  all_fulfilled getItems gribFile locations s = true ->
  forall r, r ∈ locations -> exists o its,
    heap s !! r = Some o /\ getItems gribFile (lat o) (lng o) = Ok its.
Proof.
  unfold all_fulfilled. rewrite forallb_forall. intros H r Hr.
  apply list_elem_of_In, H in Hr.
  destruct (heap s !! r) as [o|]; [|done].
  destruct (getItems gribFile (lat o) (lng o)) as [its|] eqn:E; [|done]. eauto.
Qed.

(** C7. When the extraction of every input location is fulfilled, then for
    every concurrency bound and every order in which the extractions settle,
    [getForecastsFromGrib] returns the input list itself: as many
    locations, location [i] of the output being location [i] of the input,
    with the [lat] and [lng] it had and, for [items], what the extraction
    called with the grid file and that [lat] and [lng] returned. Objects
    outside the list are as they were. *)
Theorem getForecastsFromGrib_keeps_input_order
    getForecastItemsFromGrib (concurrency : nat) (sched : schedule)
    (locations : list ref) (gribFile : string) (s : Store) :
  all_fulfilled getForecastItemsFromGrib gribFile locations s = true ->
  exists s',
    getForecastsFromGrib getForecastItemsFromGrib concurrency sched locations gribFile s
      = (Ok locations, s') /\
    (forall i r o, locations !! i = Some r -> heap s !! r = Some o ->
       exists forecastItems,
         getForecastItemsFromGrib gribFile (lat o) (lng o) = Ok forecastItems /\
         heap s' !! r =
         Some {| lat := lat o; lng := lng o; items := Some forecastItems |}) /\
    (forall r, r ∉ locations -> heap s' !! r = heap s !! r).
Proof.
  intros Hok. pose proof (all_fulfilled_spec _ _ _ _ Hok) as Hall.
  destruct (getForecastsFromGrib_fulfilled getForecastItemsFromGrib concurrency
              sched gribFile locations s Hall) as (s' & Hs & Hc & Hl & Hh).
  exists s'. split; [done|]. split.
  - intros i r o Hi Ho.
    assert (r ∈ locations) as Hr by (by eapply list_elem_of_lookup_2).
    destruct (Hall r Hr) as (o' & its & Ho' & Hits).
    rewrite Ho in Ho'. inversion Ho'; subst o'.
    exists its. split; [done|].
    rewrite (Hh r o Ho), bool_decide_eq_true_2 by done.
    unfold extracted. by rewrite Hits.
  - intros r Hr. destruct (heap s !! r) as [o|] eqn:Ho.
    + by rewrite (Hh r o Ho), bool_decide_eq_false_2.
    + apply lookup_ge_None_2. rewrite Hl. by apply lookup_ge_None_1.
Qed.

Lemma getForecastsFromGrib_keeps_input_order_witness :
  exists s',
    getForecastsFromGrib by_latitude 2 shuffled [2; 0; 1]%nat "hirlam.grb" snapshot3
      = (Ok [2; 0; 1]%nat, s') /\
    (forall i r o, [2; 0; 1]%nat !! i = Some r -> heap snapshot3 !! r = Some o ->
       exists forecastItems,
         by_latitude "hirlam.grb" (lat o) (lng o) = Ok forecastItems /\
         heap s' !! r =
         Some {| lat := lat o; lng := lng o; items := Some forecastItems |}) /\
    (forall r, r ∉ [2; 0; 1]%nat -> heap s' !! r = heap snapshot3 !! r).
Proof.
  exact (getForecastsFromGrib_keeps_input_order by_latitude 2 shuffled
           [2; 0; 1]%nat "hirlam.grb" snapshot3 ltac:(vm_compute; reflexivity)).
Defined.

(** ** C2: a refresh that fails publishes nothing *)

Section RefreshProperties.

Variable gribGet : list string -> result string.
Variable getForecastItemsFromGrib :
  string -> float -> float -> result (list ForecastItem).
Variable CPU_COUNT : nat.
Variable sched : schedule.
Variable gribFile : string.

Abbreviation refresh :=
  (refreshFrom gribGet getForecastItemsFromGrib CPU_COUNT sched gribFile).

(** A refresh that fails leaves [cachedForecasts] and every object of the
    heap as they were. *)
Lemma refreshFrom_Err_unchanged s e s' :
  refresh s = (Err e, s') ->
  cachedForecasts s' = cachedForecasts s /\
  forall r o, heap s !! r = Some o -> heap s' !! r = Some o.
Proof.
  unfold refreshFrom. intros H.
  apply bind_inv in H as [(e1 & H & _)|(bounds & s1 & Hb & H)].
  { unfold lift in H. by inversion H. }
  unfold lift in Hb. inversion Hb as [[Hb' Hs1]]. subst s1. clear Hb.
  apply bind_inv in H as [(e1 & H & _)|(locations & s1 & Hl & H)].
  { rewrite createForecastLocations_eq in H.
    destruct (latitudes_of _ _); [destruct (longitudes_of _ _)|];
      by inversion H. }
  rewrite createForecastLocations_eq in Hl.
  destruct (latitudes_of _ _) as [las|]; [|done].
  destruct (longitudes_of _ _) as [los|]; [|done].
  inversion Hl; subst locations s1. clear Hl.
  apply bind_inv in H as [(e1 & H & _)|(forecasts & s2 & _ & H)]; [|done].
  apply getForecastsFromGrib_frame in H as (Hc & _ & Hh). cbn in Hc, Hh.
  split; [done|]. intros r o Hr.
  rewrite Hh.
  - by apply lookup_app_l_Some.
  - rewrite elem_of_seq. apply lookup_lt_Some in Hr. lia.
Qed.

Lemma refreshFrom_step_fails s :
  step_fails gribGet getForecastItemsFromGrib gribFile s ->
  exists e s', refresh s = (Err e, s').
Proof.
  intros [e He|bounds locations s1 r o e Hb Hl Hr Ho He]; unfold refreshFrom.
  - exists e, s. apply bind_Err. unfold lift, getGribBounds. by rewrite He.
  - destruct (getForecastsFromGrib_rejected getForecastItemsFromGrib CPU_COUNT
                sched gribFile locations s1 r o e Hr Ho He) as (e' & s' & Hf).
    exists e', s'.
    assert (lift (getGribBounds gribGet gribFile) s = (Ok bounds, s)) as Hb'
      by (unfold lift; by rewrite Hb).
    rewrite (bind_Ok _ _ _ _ _ Hb'), (bind_Ok _ _ _ _ _ Hl).
    by apply bind_Err.
Qed.

(** A refresh that succeeds publishes the whole grid, every location with
    the items of its extraction. *)
Lemma refreshFrom_Ok_complete s s' :
  refresh s = (Ok tt, s') ->
  forall r, r ∈ cachedForecasts s' -> exists o forecastItems,
    heap s' !! r = Some o /\
    items o = Some forecastItems /\
    getForecastItemsFromGrib gribFile (lat o) (lng o) = Ok forecastItems.
Proof.
  unfold refreshFrom. intros H.
  apply bind_Ok_inv in H as (bounds & s0 & Hb & H).
  unfold lift in Hb. inversion Hb as [[Hb' Hs0]]. subst s0. clear Hb.
  apply bind_Ok_inv in H as (locations & s1 & Hl & H).
  apply bind_Ok_inv in H as (forecasts & s2 & Hf & H).
  unfold set_cachedForecasts in H. inversion H; subst s'. clear H. cbn.
  assert (forall r, r ∈ locations -> exists o its,
            heap s1 !! r = Some o /\
            getForecastItemsFromGrib gribFile (lat o) (lng o) = Ok its) as Hok.
  { intros r Hr.
    rewrite createForecastLocations_eq in Hl.
    destruct (latitudes_of _ _) as [las|]; [|done].
    destruct (longitudes_of _ _) as [los|]; [|done].
    inversion Hl; subst locations s1. clear Hl. cbn.
    apply elem_of_seq in Hr.
    destruct (lookup_lt_is_Some_2 (heap s ++ grid las los) r) as [o Ho].
    { rewrite length_app, length_grid. lia. }
    exists o.
    destruct (getForecastItemsFromGrib gribFile (lat o) (lng o)) as [its|e] eqn:E;
      [eauto|].
    destruct (getForecastsFromGrib_rejected getForecastItemsFromGrib CPU_COUNT
                sched gribFile (seq (length (heap s)) (length las * length los))
                {| heap := heap s ++ grid las los;
                   cachedForecasts := cachedForecasts s |} r o e)
      as (e' & s' & Hrej); try done.
    { apply elem_of_seq. lia. }
    rewrite Hrej in Hf. done. }
  destruct (getForecastsFromGrib_fulfilled getForecastItemsFromGrib CPU_COUNT
              sched gribFile locations s1 Hok) as (s2' & Hs2 & _ & _ & Hh).
  rewrite Hs2 in Hf. inversion Hf; subst forecasts s2'. clear Hf.
  intros r Hr. destruct (Hok r Hr) as (o & its & Ho & Hits).
  exists {| lat := lat o; lng := lng o; items := Some its |}, its.
  split; [|done].
  rewrite (Hh r o Ho), bool_decide_eq_true_2 by done.
  unfold extracted. by rewrite Hits.
Qed.

End RefreshProperties.

(** C2. If the bounds extraction fails, or the extraction at any point of the
    grid does, the refresh fails, and it leaves [cachedForecasts] and every
    object in the heap exactly as they were when it began; so does every
    refresh that fails, whatever the failure. The one assignment to
    [cachedForecasts] comes after the whole pipeline: a refresh that succeeds
    publishes locations that all carry the items of their extraction. *)
Theorem refreshFrom_all_or_nothing gribGet getForecastItemsFromGrib
    (CPU_COUNT : nat) (sched : schedule) (gribFile : string) (s : Store) :
  (step_fails gribGet getForecastItemsFromGrib gribFile s ->
   exists e s',
     refreshFrom gribGet getForecastItemsFromGrib CPU_COUNT sched gribFile s
       = (Err e, s') /\
     cachedForecasts s' = cachedForecasts s /\
     forall r o, heap s !! r = Some o -> heap s' !! r = Some o) /\
  (forall e s',
     refreshFrom gribGet getForecastItemsFromGrib CPU_COUNT sched gribFile s
       = (Err e, s') ->
     cachedForecasts s' = cachedForecasts s /\
     forall r o, heap s !! r = Some o -> heap s' !! r = Some o) /\
  (forall s',
     refreshFrom gribGet getForecastItemsFromGrib CPU_COUNT sched gribFile s
       = (Ok tt, s') ->
     forall r, r ∈ cachedForecasts s' -> exists o forecastItems,
       heap s' !! r = Some o /\
       items o = Some forecastItems /\
       getForecastItemsFromGrib gribFile (lat o) (lng o) = Ok forecastItems).
Proof.
  split; [|split].
  - intros Hf.
    destruct (refreshFrom_step_fails _ _ CPU_COUNT sched _ _ Hf) as (e & s' & H).
    exists e, s'. split; [done|]. by eapply refreshFrom_Err_unchanged.
  - intros e s'. apply refreshFrom_Err_unchanged.
  - intros s'. apply refreshFrom_Ok_complete.
Qed.

(** The grid from (60, 24) to (60.5, 25) has six points; with the extraction
    rejected at the two points of latitude 60.2, a refresh over [snapshot1]
    fails and [snapshot1] stays. *)
Lemma refreshFrom_all_or_nothing_witness :
  exists e s',
    refreshFrom bounds_60_24 rejects_60_2 4 shuffled "hirlam.grb" snapshot1
      = (Err e, s') /\
    cachedForecasts s' = cachedForecasts snapshot1 /\
    forall r o, heap snapshot1 !! r = Some o -> heap s' !! r = Some o.
Proof.
  apply (proj1 (refreshFrom_all_or_nothing bounds_60_24 rejects_60_2 4 shuffled
                  "hirlam.grb" snapshot1)).
  eapply (point_fail _ _ _ _ _ _ _ 3%nat).
  - vm_compute. reflexivity.
  - vm_compute. reflexivity.
  - apply list_elem_of_In. vm_compute. tauto.
  - vm_compute. reflexivity.
  - vm_compute. reflexivity.
Defined.

(** * Further properties *)

(** ** A query that throws; a query on an empty cache *)

Lemma in_polygon_valid h cs r : in_polygon h cs r = true -> (r < length h)%nat.
Proof.
  unfold in_polygon. destruct (h !! r) eqn:E; [|done]. intros _.
  by eapply lookup_lt_Some.
Qed.

(** Whatever [getForecasts] throws, the spatial filter threw it: the time
    filter works on objects the spatial filter has read. *)
Lemma getForecasts_Err bounds startTime s e s' :
  getForecasts bounds startTime s = (Err e, s') ->
  s' = s /\
  filter_st (inBounds (corners bounds)) (cachedForecasts s) s = (Err e, s).
Proof.
  unfold getForecasts. intros H.
  apply bind_inv in H as [(e1 & H & _)|(cached & s1 & Hc & H)]; [done|].
  inversion Hc; subst cached s1. clear Hc.
  pose proof (filter_st_inBounds_state (corners bounds) (cachedForecasts s) s) as Hst.
  apply bind_inv in H as [(e1 & H & He)|(sel & s1 & Hsel & H)].
  { rewrite H in Hst. cbn in Hst. subst s'. by inversion He. }
  pose proof Hsel as Hsel'.
  apply filter_st_inBounds_Ok in Hsel' as (-> & ->).
  destruct (map_st_keepAfter_total (Moment.moment (default 0 startTime))
              (filter (fun r => in_polygon (heap s) (corners bounds) r = true)
                      (cachedForecasts s)) s) as [s2 Hs2].
  { intros r Hr. apply list_elem_of_filter in Hr as [Hr _].
    by eapply in_polygon_valid. }
  rewrite (bind_Ok _ _ _ _ _ Hs2) in H. done.
Qed.

(** X1. A query that throws has written nothing: the store is the one it
    started from. And the cache it ran on was not empty: on an empty cache
    every query returns the empty list. *)
Theorem getForecasts_throws_before_writing bounds startTime s e s' :
  getForecasts bounds startTime s = (Err e, s') ->
  s' = s /\ cachedForecasts s <> [].
Proof.
  intros H. apply getForecasts_Err in H as [-> H].
  split; [done|].
  intros Hnil. rewrite Hnil in H. done.
Qed.

(** A box whose west longitude is undefined: the test throws on the first
    cached location. *)
Lemma getForecasts_throws_before_writing_witness :
  snapshot1 = snapshot1 /\ cachedForecasts snapshot1 <> [].
Proof.
  exact (getForecasts_throws_before_writing
           {| Bounds.swCorner := {| Bounds.lat := JS.Num 60; Bounds.lng := JS.Undefined |};
              Bounds.neCorner := {| Bounds.lat := JS.Num 61; Bounds.lng := JS.Num 25 |} |}
           (Some 2000) snapshot1 TypeError snapshot1 ltac:(vm_compute; reflexivity)).
Defined.

(** ** What a query never changes *)

(** X2. Whatever its outcome, a query leaves [cachedForecasts] and the number
    of objects as they were, and every object with the [lat] and [lng] it
    had and with items that are a subsequence of those it had; an object it
    did not return is exactly as it was. *)
Theorem getForecasts_only_drops_items bounds startTime s res s' :
  getForecasts bounds startTime s = (res, s') ->
  cachedForecasts s' = cachedForecasts s /\
  length (heap s') = length (heap s) /\
  forall r o, heap s !! r = Some o ->
    exists o', heap s' !! r = Some o' /\
      lat o' = lat o /\ lng o' = lng o /\
      default [] (items o') `sublist_of` default [] (items o) /\
      (forall refs, res = Ok refs -> r ∉ refs -> o' = o).
Proof.
  intros H. destruct res as [refs|e].
  - apply getForecasts_Ok in H as (_ & Hc & Hl & Hh).
    split; [done|]. split; [done|]. intros r o Ho. rewrite (Hh r o Ho).
    destruct (bool_decide (r ∈ refs)) eqn:E.
    + exists (kept (Moment.moment (default 0 startTime)) o). split; [done|].
      split; [done|]. split; [done|]. split.
      * unfold kept. cbn [items default from_option id].
        unfold itemsAfter. apply sublist_filter.
      * intros refs' [= <-] Hr. by apply bool_decide_eq_true_1 in E.
    + exists o. by repeat split.
  - apply getForecasts_Err in H as [-> _].
    split; [done|]. split; [done|]. intros r o Ho. exists o. by repeat split.
Qed.

Lemma getForecasts_only_drops_items_witness :
  cachedForecasts snapshot1_from_2000 = cachedForecasts snapshot1 /\
  length (heap snapshot1_from_2000) = length (heap snapshot1) /\
  forall r o, heap snapshot1 !! r = Some o ->
    exists o', heap snapshot1_from_2000 !! r = Some o' /\
      lat o' = lat o /\ lng o' = lng o /\
      default [] (items o') `sublist_of` default [] (items o) /\
      (forall refs, Ok [0%nat] = Ok refs -> r ∉ refs -> o' = o).
Proof.
  exact (getForecasts_only_drops_items box_60_24_61_25 (Some 2000) snapshot1
           (Ok [0%nat]) snapshot1_from_2000 ltac:(vm_compute; reflexivity)).
Defined.

(** ** Queries one after the other *)

Lemma bind_ret {A} (m : M A) s : (x <- m ;; ret x) s = m s.
Proof. unfold bind, ret. by destruct (m s) as [[a|e] s']. Qed.

Lemma getForecasts_unfold bounds startTime s :
  getForecasts bounds startTime s =
  match fst (filter_st (inBounds (corners bounds)) (cachedForecasts s) s) with
  | Ok sel => map_st (keepAfter (Moment.moment (default 0 startTime))) sel s
  | Err e => (Err e, s)
  end.
Proof.
  unfold getForecasts.
  assert (get_cachedForecasts s = (Ok (cachedForecasts s), s)) as Hg by done.
  rewrite (bind_Ok _ _ _ _ _ Hg).
  pose proof (filter_st_inBounds_state (corners bounds) (cachedForecasts s) s) as Hst.
  destruct (filter_st (inBounds (corners bounds)) (cachedForecasts s) s)
    as [[sel|e] s1] eqn:E; cbn in Hst; subst s1; cbn [fst].
  - rewrite (bind_Ok _ _ _ _ _ E). apply bind_ret.
  - by rewrite (bind_Err _ _ _ _ _ E).
Qed.

(** The spatial filter reads the coordinates of the objects, nothing else. *)
Lemma filter_st_inBounds_coords cs l s1 s2 :
  (forall r, r ∈ l -> point_of <$> heap s1 !! r = point_of <$> heap s2 !! r) ->
  fst (filter_st (inBounds cs) l s1) = fst (filter_st (inBounds cs) l s2).
Proof.
  induction l as [|r l IH]; intros H; [done|].
  cbn [filter_st]. unfold bind at 1 3. rewrite !inBounds_eq.
  pose proof (H r (list_elem_of_here _ _)) as Hr.
  assert (fst (filter_st (inBounds cs) l s1) = fst (filter_st (inBounds cs) l s2)) as IH'.
  { apply IH. intros r' Hr'. apply H. by apply list_elem_of_further. }
  pose proof (filter_st_inBounds_state cs l s1) as Hs1.
  pose proof (filter_st_inBounds_state cs l s2) as Hs2.
  destruct (heap s1 !! r) as [o1|], (heap s2 !! r) as [o2|]; try done.
  assert (point_of o1 = point_of o2) as -> by (cbn in Hr; congruence).
  destruct (Geolib.isPointInside (point_of o2) cs) as [b|e]; [|done].
  unfold bind.
  destruct (filter_st (inBounds cs) l s1) as [[rest1|e1] s1'],
           (filter_st (inBounds cs) l s2) as [[rest2|e2] s2'];
    cbn in IH' |- *; by inversion IH'.
Qed.

Lemma point_of_kept startTime o : point_of (kept startTime o) = point_of o.
Proof. done. Qed.

(** The store that a query leaves, in closed form. *)
Lemma getForecasts_queried bounds startTime s refs s' :
  getForecasts bounds startTime s = (Ok refs, s') ->
  s' = queried refs (Moment.moment (default 0 startTime)) s.
Proof.
  intros H. apply getForecasts_Ok in H as (_ & Hc & Hl & Hh).
  destruct s' as [h' c']. cbn in Hc, Hl, Hh. subst c'. unfold queried. f_equal.
  apply list_eq. intros r. rewrite list_lookup_imap.
  destruct (heap s !! r) as [o|] eqn:Ho.
  - by rewrite (Hh r o Ho).
  - cbn. apply lookup_ge_None_2. rewrite Hl. by apply lookup_ge_None_1.
Qed.

Lemma lookup_queried refs startTime s r :
  heap (queried refs startTime s) !! r =
  (fun o => if bool_decide (r ∈ refs) then kept startTime o else o) <$> heap s !! r.
Proof. unfold queried. cbn [heap]. apply list_lookup_imap. Qed.

Lemma queried_coords refs startTime s r :
  point_of <$> heap (queried refs startTime s) !! r = point_of <$> heap s !! r.
Proof.
  rewrite lookup_queried. destruct (heap s !! r) as [o|]; [|done]. cbn.
  by destruct (bool_decide (r ∈ refs)).
Qed.

(** What a query did to the store is invisible to the spatial filter. *)
Lemma getForecasts_coords bounds startTime s res s' r :
  getForecasts bounds startTime s = (res, s') ->
  point_of <$> heap s' !! r = point_of <$> heap s !! r.
Proof.
  intros H. destruct res as [refs|e].
  - apply getForecasts_queried in H as ->. apply queried_coords.
  - by apply getForecasts_Err in H as [-> _].
Qed.

Lemma getForecasts_cached bounds startTime s res s' :
  getForecasts bounds startTime s = (res, s') ->
  cachedForecasts s' = cachedForecasts s.
Proof.
  intros H. destruct res as [refs|e].
  - by apply getForecasts_queried in H as ->.
  - by apply getForecasts_Err in H as [-> _].
Qed.

Lemma getForecasts_selection bounds startTime s :
  fst (getForecasts bounds startTime s) =
  fst (filter_st (inBounds (corners bounds)) (cachedForecasts s) s).
Proof.
  rewrite getForecasts_unfold.
  destruct (filter_st (inBounds (corners bounds)) (cachedForecasts s) s)
    as [[sel|e] s1] eqn:E; cbn [fst]; [|done].
  apply filter_st_inBounds_Ok in E as [-> ->].
  destruct (map_st_keepAfter_total (Moment.moment (default 0 startTime))
              (filter (fun r => in_polygon (heap s) (corners bounds) r = true)
                      (cachedForecasts s)) s) as [s2 Hs2].
  { intros r Hr. apply list_elem_of_filter in Hr as [Hr _].
    by eapply in_polygon_valid. }
  by rewrite Hs2.
Qed.

(** X3. An earlier query, whatever its box, start time and outcome, does not
    change what a later query returns: the same references, or the same
    error, as on the store before it. *)
Theorem getForecasts_selection_stable bounds1 startTime1 bounds2 startTime2 s res1 s1 :
  getForecasts bounds1 startTime1 s = (res1, s1) ->
  fst (getForecasts bounds2 startTime2 s1) = fst (getForecasts bounds2 startTime2 s).
Proof.
  intros H. rewrite !getForecasts_selection.
  rewrite (getForecasts_cached _ _ _ _ _ H).
  apply filter_st_inBounds_coords. intros r _.
  by eapply getForecasts_coords.
Qed.

Lemma getForecasts_selection_stable_witness :
  fst (getForecasts box_61_24_60_25 None snapshot1_from_2000) =
  fst (getForecasts box_61_24_60_25 None snapshot1).
Proof.
  exact (getForecasts_selection_stable box_60_24_61_25 (Some 2000)
           box_61_24_60_25 None snapshot1 (Ok [0%nat]) snapshot1_from_2000
           ltac:(vm_compute; reflexivity)).
Defined.

Lemma getForecasts_then bounds1 startTime1 bounds2 startTime2 s res1 s1 refs2 s2 :
  getForecasts bounds1 startTime1 s = (res1, s1) ->
  getForecasts bounds2 startTime2 s = (Ok refs2, s2) ->
  getForecasts bounds2 startTime2 s1 =
  (Ok refs2, queried refs2 (Moment.moment (default 0 startTime2)) s1).
Proof.
  intros H1 H2.
  assert (fst (getForecasts bounds2 startTime2 s1) = Ok refs2) as Hf.
  { rewrite getForecasts_selection, (getForecasts_cached _ _ _ _ _ H1).
    rewrite (filter_st_inBounds_coords _ _ s1 s).
    - by rewrite <- (getForecasts_selection bounds2 startTime2 s), H2.
    - intros r _. by eapply getForecasts_coords. }
  destruct (getForecasts bounds2 startTime2 s1) as [res s12] eqn:E.
  cbn in Hf. subst res. by rewrite (getForecasts_queried _ _ _ _ _ E).
Qed.

Lemma itemsAfter_both t1 t2 its :
  itemsAfter (Moment.moment t2) (Some (itemsAfter (Moment.moment t1) its)) =
  filter (fun item => dated_after t1 item /\ dated_after t2 item) (default [] its).
Proof.
  rewrite !itemsAfter_spec. cbn [default from_option id].
  rewrite list_filter_filter. apply list_filter_iff. tauto.
Qed.

Lemma itemsAfter_comm m1 m2 its :
  itemsAfter m2 (Some (itemsAfter m1 its)) = itemsAfter m1 (Some (itemsAfter m2 its)).
Proof.
  unfold itemsAfter. cbn [default from_option id].
  rewrite !list_filter_filter. apply list_filter_iff. tauto.
Qed.

Lemma kept_comm m1 m2 o : kept m2 (kept m1 o) = kept m1 (kept m2 o).
Proof. unfold kept. cbn [lat lng items]. by rewrite itemsAfter_comm. Qed.

Lemma queried_comm refs1 t1 refs2 t2 s :
  queried refs2 t2 (queried refs1 t1 s) = queried refs1 t1 (queried refs2 t2 s).
Proof.
  unfold queried. cbn [heap cachedForecasts]. f_equal.
  apply list_eq. intros r. rewrite !list_lookup_imap.
  destruct (heap s !! r) as [o|]; [|done]. cbn. f_equal.
  destruct (bool_decide (r ∈ refs1)), (bool_decide (r ∈ refs2)); try done.
  apply kept_comm.
Qed.

(** X4. Two queries that each succeed on a store succeed one after the other
    in either order, each returning what it returns alone, and both orders
    leave the same store: an object that both return holds its items dated
    after both start times, an object that one returns the items dated after
    that one's start time, any other object what it held. An item is dated
    after a start time when both are valid dates and the item's time is
    strictly greater. *)
Theorem getForecasts_commute bounds1 startTime1 bounds2 startTime2 s refs1 s1 refs2 s2 :
  getForecasts bounds1 startTime1 s = (Ok refs1, s1) ->
  getForecasts bounds2 startTime2 s = (Ok refs2, s2) ->
  exists s12,
    getForecasts bounds2 startTime2 s1 = (Ok refs2, s12) /\
    getForecasts bounds1 startTime1 s2 = (Ok refs1, s12) /\
    forall r o, heap s !! r = Some o ->
      heap s12 !! r =
      Some (match bool_decide (r ∈ refs1), bool_decide (r ∈ refs2) with
            | true, true =>
                {| lat := lat o; lng := lng o;
                   items := Some (filter (fun item =>
                                            dated_after (default 0 startTime1) item /\
                                            dated_after (default 0 startTime2) item)
                                         (default [] (items o))) |}
            | true, false =>
                {| lat := lat o; lng := lng o;
                   items := Some (filter (dated_after (default 0 startTime1))
                                         (default [] (items o))) |}
            | false, true =>
                {| lat := lat o; lng := lng o;
                   items := Some (filter (dated_after (default 0 startTime2))
                                         (default [] (items o))) |}
            | false, false => o
            end).
Proof.
  intros H1 H2.
  exists (queried refs2 (Moment.moment (default 0 startTime2)) s1). split; [|split].
  - by eapply getForecasts_then.
  - rewrite (getForecasts_then _ _ _ _ _ _ _ _ _ H2 H1).
    rewrite (getForecasts_queried _ _ _ _ _ H1), (getForecasts_queried _ _ _ _ _ H2).
    by rewrite queried_comm.
  - intros r o Ho. rewrite (getForecasts_queried _ _ _ _ _ H1).
    rewrite !lookup_queried, Ho. cbn. f_equal.
    destruct (bool_decide (r ∈ refs1)), (bool_decide (r ∈ refs2)); try done;
      unfold kept; cbn [lat lng items];
      by rewrite ?itemsAfter_both, ?itemsAfter_spec.
Qed.

(** On [snapshot1], with items at 1000, 2000 and 3000: the query from 2000
    and the query from 1000, in either order, leave the item at 3000. *)
Lemma getForecasts_commute_witness :
  exists s12,
    getForecasts box_61_24_60_25 (Some 1000) snapshot1_from_2000 = (Ok [0%nat], s12) /\
    getForecasts box_60_24_61_25 (Some 2000)
      {| heap := [located 60.5 24.5 [2000; 3000]]; cachedForecasts := [0%nat] |}
      = (Ok [0%nat], s12) /\
    forall r o, heap snapshot1 !! r = Some o ->
      heap s12 !! r =
      Some (match bool_decide (r ∈ [0%nat]), bool_decide (r ∈ [0%nat]) with
            | true, true =>
                {| lat := lat o; lng := lng o;
                   items := Some (filter (fun item =>
                                            dated_after (default 0 (Some 2000)) item /\
                                            dated_after (default 0 (Some 1000)) item)
                                         (default [] (items o))) |}
            | true, false =>
                {| lat := lat o; lng := lng o;
                   items := Some (filter (dated_after (default 0 (Some 2000)))
                                         (default [] (items o))) |}
            | false, true =>
                {| lat := lat o; lng := lng o;
                   items := Some (filter (dated_after (default 0 (Some 1000)))
                                         (default [] (items o))) |}
            | false, false => o
            end).
Proof.
  exact (getForecasts_commute box_60_24_61_25 (Some 2000) box_61_24_60_25 (Some 1000)
           snapshot1 [0%nat] snapshot1_from_2000 [0%nat]
           {| heap := [located 60.5 24.5 [2000; 3000]]; cachedForecasts := [0%nat] |}
           ltac:(vm_compute; reflexivity) ltac:(vm_compute; reflexivity)).
Defined.

Lemma queried_idemp refs t s : queried refs t (queried refs t s) = queried refs t s.
Proof.
  unfold queried. cbn [heap cachedForecasts]. f_equal.
  apply list_eq. intros r. rewrite !list_lookup_imap.
  destruct (heap s !! r) as [o|]; [|done]. cbn. f_equal.
  destruct (bool_decide (r ∈ refs)); [|done]. apply kept_idemp.
Qed.

(** X5. A query repeated with the same box and the same start time returns
    the same references and changes nothing any more. *)
Theorem getForecasts_repeated bounds startTime s refs s' :
  getForecasts bounds startTime s = (Ok refs, s') ->
  getForecasts bounds startTime s' = (Ok refs, s').
Proof.
  intros H. rewrite (getForecasts_then _ _ _ _ _ _ _ _ _ H H).
  rewrite (getForecasts_queried _ _ _ _ _ H). by rewrite queried_idemp.
Qed.

Lemma getForecasts_repeated_witness :
  getForecasts box_60_24_61_25 (Some 2000) snapshot1_from_2000
  = (Ok [0%nat], snapshot1_from_2000).
Proof.
  exact (getForecasts_repeated box_60_24_61_25 (Some 2000) snapshot1 [0%nat]
           snapshot1_from_2000 ltac:(vm_compute; reflexivity)).
Defined.

(** ** A box without area *)

Lemma queried_nil startTime s : queried [] startTime s = s.
Proof.
  destruct s as [h c]. unfold queried. cbn [heap cachedForecasts]. f_equal.
  apply list_eq. intros r. rewrite list_lookup_imap.
  by destruct (h !! r).
Qed.

(** A query on a cache in order, with a box of numbers, none of whose cached
    locations passes the test, returns nothing and changes nothing. *)
Lemma getForecasts_none bounds startTime s :
  numeric_box bounds = true -> cache_ok s = true ->
  (forall r, r ∈ cachedForecasts s -> in_polygon (heap s) (corners bounds) r = false) ->
  getForecasts bounds startTime s = (Ok [], s).
Proof.
  intros Hb Hs Hout.
  destruct (getForecasts_total bounds startTime s Hb Hs) as (refs & s' & H).
  pose proof H as H'. apply getForecasts_Ok in H' as (Hrefs & _).
  assert (refs = []) as ->.
  { apply elem_of_nil_inv. intros r Hr. rewrite Hrefs in Hr.
    apply list_elem_of_filter in Hr as [Hp Hr]. by rewrite (Hout r Hr) in Hp. }
  by rewrite H, (getForecasts_queried _ _ _ _ _ H), queried_nil.
Qed.

Lemma isPointInside_zero_width a b c x y :
  PrimFloat.is_nan a = false -> PrimFloat.is_nan b = false ->
  PrimFloat.is_nan c = false ->
  PrimFloat.is_nan x = false -> PrimFloat.is_nan y = false ->
  Geolib.isPointInside (point x y) (corners (box a b c b)) = Ok false.
Proof.
  intros Ha Hb Hc Hx Hy.
  unfold Geolib.isPointInside, corners, box. cbn [last Bounds.swCorner
    Bounds.neCorner Bounds.lat Bounds.lng Geolib.isPointInside_loop].
  change {| Geolib.latitude := JS.Num ?u; Geolib.longitude := JS.Num ?v |}
    with (point u v).
  cbn [Geolib.isPointInside_loop].
  rewrite !crosses_Num by done. cbn [mbind result_bind].
  rewrite !leb_ltb_absurd by done. done.
Qed.

(** X6. A box of no width (its two longitudes equal) selects nothing, whatever
    its latitudes: on a cache whose locations have numbers for coordinates
    the query returns the empty list and changes nothing. *)
Theorem getForecasts_zero_width_box a b c startTime s :
  numeric_box (box a b c b) = true -> cache_ok s = true ->
  getForecasts (box a b c b) startTime s = (Ok [], s).
Proof.
  intros Hb Hs. apply getForecasts_none; [done..|].
  intros r Hr. unfold in_polygon.
  unfold cache_ok in Hs. rewrite forallb_forall in Hs.
  apply list_elem_of_In, Hs in Hr.
  destruct (heap s !! r) as [o|]; [|done].
  unfold numeric_box, box in Hb. cbn in Hb.
  unfold numeric_point, point_of in Hr. cbn in Hr.
  apply andb_true_iff in Hb as [Hb _]. apply andb_true_iff in Hb as [Hb Hc].
  apply andb_true_iff in Hb as [Ha Hb]. apply andb_true_iff in Hr as [Hx Hy].
  apply negb_true_iff in Ha, Hb, Hc, Hx, Hy.
  change (point_of o) with (point (lat o) (lng o)).
  by rewrite isPointInside_zero_width.
Qed.

Lemma getForecasts_zero_width_box_witness :
  getForecasts (box 60 24.5 61 24.5) None snapshot3 = (Ok [], snapshot3).
Proof.
  exact (getForecasts_zero_width_box 60 24.5 61 None snapshot3
           ltac:(vm_compute; reflexivity) ltac:(vm_compute; reflexivity)).
Defined.

(** X7. A box of no height (its two latitudes equal) selects nothing, for a
    box and a cache within reach of the test's arithmetic. *)
Theorem getForecasts_zero_height_box a b d startTime s :
  box_in_reach a b a d = true -> cache_in_reach b d s = true ->
  getForecasts (box a b a d) startTime s = (Ok [], s).
Proof.
  intros Hb Hs.
  destruct (cache_in_reach_ok a b a d s Hb Hs) as [Hnb Hok].
  apply getForecasts_none; [done..|].
  intros r Hr. unfold in_polygon.
  destruct (in_polygon_box a b a d s r Hb Hs Hr) as (o & -> & ->).
  by rewrite xorb_nilpotent, andb_false_r.
Qed.

Lemma getForecasts_zero_height_box_witness :
  getForecasts (box 60.5 24 60.5 25) None snapshot3 = (Ok [], snapshot3).
Proof.
  exact (getForecasts_zero_height_box 60.5 24 25 None snapshot3
           ltac:(vm_compute; reflexivity) ltac:(vm_compute; reflexivity)).
Defined.

(** ** What a refresh publishes *)

Lemma heap_pointwise (h h' : list Forecast) (f : nat -> Forecast -> Forecast) :
  length h' = length h ->
  (forall r o, h !! r = Some o -> h' !! r = Some (f r o)) ->
  h' = imap f h.
Proof.
  intros Hl Hh. apply list_eq. intros r. rewrite list_lookup_imap.
  destruct (h !! r) as [o|] eqn:Ho.
  - by rewrite (Hh r o Ho).
  - cbn. apply lookup_ge_None_2. rewrite Hl. by apply lookup_ge_None_1.
Qed.

Section RefreshOutcome.

Variable gribGet : list string -> result string.
Variable getForecastItemsFromGrib :
  string -> float -> float -> result (list ForecastItem).
Variable gribFile : string.

(** The objects that [createForecastLocations] has allocated, once every
    one of them is extracted. *)
Lemma extracted_grid (h g : list Forecast) :
  imap (fun r o => if bool_decide (r ∈ seq (length h) (length g))
                   then extracted getForecastItemsFromGrib gribFile o else o)
       (h ++ g) =
  h ++ map (extracted getForecastItemsFromGrib gribFile) g.
Proof.
  apply list_eq. intros r. rewrite list_lookup_imap.
  destruct (decide (r < length h)%nat) as [Hr|Hr].
  - rewrite !lookup_app_l by done.
    destruct (h !! r) as [o|]; [|done]. cbn.
    rewrite bool_decide_eq_false_2; [done|]. rewrite elem_of_seq. lia.
  - rewrite !lookup_app_r, list_lookup_fmap by lia.
    destruct (g !! (r - length h)%nat) as [o|] eqn:Ho; [|done]. cbn.
    rewrite bool_decide_eq_true_2; [done|].
    rewrite elem_of_seq. apply lookup_lt_Some in Ho. lia.
Qed.

Lemma grid_fulfilled_spec latitudes longitudes (h : list Forecast) c :
  grid_fulfilled getForecastItemsFromGrib gribFile latitudes longitudes = true <->
  forall r, r ∈ seq (length h) (length latitudes * length longitudes) ->
    exists o its,
      heap {| heap := h ++ grid latitudes longitudes; cachedForecasts := c |} !! r
        = Some o /\
      getForecastItemsFromGrib gribFile (lat o) (lng o) = Ok its.
Proof.
  unfold grid_fulfilled. rewrite forallb_forall. cbn [heap]. split.
  - intros H r Hr. apply elem_of_seq in Hr.
    destruct (lookup_lt_is_Some_2 (grid latitudes longitudes) (r - length h)) as [o Ho].
    { rewrite length_grid. lia. }
    exists o. specialize (H o (proj1 (list_elem_of_In _ _) (list_elem_of_lookup_2 _ _ _ Ho))).
    destruct (getForecastItemsFromGrib gribFile (lat o) (lng o)) as [its|e]; [|done].
    exists its. split; [|done]. rewrite lookup_app_r by lia. done.
  - intros H o Ho. apply list_elem_of_In, list_elem_of_lookup_1 in Ho as [i Hi].
    destruct (H (length h + i)%nat) as (o' & its & Ho' & Hits).
    { apply elem_of_seq. apply lookup_lt_Some in Hi. rewrite length_grid in Hi. lia. }
    rewrite lookup_app_r in Ho' by lia.
    replace (length h + i - length h)%nat with i in Ho' by lia.
    rewrite Hi in Ho'. injection Ho' as <-. by rewrite Hits.
Qed.

(** A refresh succeeds exactly when the bounds are read, the two ranges are
    built and the extraction is fulfilled at every point of the grid; the
    store it leaves is then [refreshed]. *)
Lemma refreshFrom_Ok_iff CPU_COUNT (sched : schedule) s s' :
  refreshFrom gribGet getForecastItemsFromGrib CPU_COUNT sched gribFile s = (Ok tt, s') <->
  exists bounds latitudes longitudes,
    getGribBounds gribGet gribFile = Ok bounds /\
    latitudes_of bounds LAT_GRID_INCREMENT = Ok latitudes /\
    longitudes_of bounds LNG_GRID_INCREMENT = Ok longitudes /\
    grid_fulfilled getForecastItemsFromGrib gribFile latitudes longitudes = true /\
    s' = refreshed getForecastItemsFromGrib gribFile s latitudes longitudes.
Proof.
  unfold refreshFrom. split.
  - intros H.
    apply bind_Ok_inv in H as (bounds & s0 & Hb & H).
    unfold lift in Hb. inversion Hb as [[Hb' Hs0]]. subst s0. clear Hb.
    apply bind_Ok_inv in H as (locations & s1 & Hl & H).
    apply bind_Ok_inv in H as (forecasts & s2 & Hf & H).
    unfold set_cachedForecasts in H. inversion H; subst s'. clear H.
    rewrite createForecastLocations_eq in Hl.
    destruct (latitudes_of _ _) as [las|] eqn:Hlas; [|done].
    destruct (longitudes_of _ _) as [los|] eqn:Hlos; [|done].
    inversion Hl; subst locations s1. clear Hl.
    exists bounds, las, los. split; [done|]. split; [done|]. split; [done|].
    assert (grid_fulfilled getForecastItemsFromGrib gribFile las los = true) as Hg.
    { apply (grid_fulfilled_spec las los (heap s) (cachedForecasts s)).
      intros r Hr. pose proof Hr as Hr'. apply elem_of_seq in Hr'.
      destruct (lookup_lt_is_Some_2 (heap s ++ grid las los) r) as [o Ho].
      { rewrite length_app, length_grid. lia. }
      exists o. cbn [heap].
      destruct (getForecastItemsFromGrib gribFile (lat o) (lng o)) as [its|e] eqn:E;
        [eauto|].
      destruct (getForecastsFromGrib_rejected getForecastItemsFromGrib CPU_COUNT
                  sched gribFile (seq (length (heap s)) (length las * length los))
                  {| heap := heap s ++ grid las los;
                     cachedForecasts := cachedForecasts s |} r o e)
        as (e' & s' & Hrej); try done.
      rewrite Hrej in Hf. done. }
    split; [done|].
    destruct (getForecastsFromGrib_fulfilled getForecastItemsFromGrib CPU_COUNT
                sched gribFile _ _
                (proj1 (grid_fulfilled_spec las los (heap s) (cachedForecasts s)) Hg))
      as (s2' & Hs2 & _ & Hlen & Hh).
    rewrite Hs2 in Hf. inversion Hf; subst forecasts s2'. clear Hf.
    unfold refreshed. f_equal.
    rewrite (heap_pointwise _ _ _ Hlen Hh). cbn [heap].
    rewrite <- length_grid. apply extracted_grid.
  - intros (bounds & las & los & Hb & Hlas & Hlos & Hg & ->).
    assert (lift (getGribBounds gribGet gribFile) s = (Ok bounds, s)) as Hb'
      by (unfold lift; by rewrite Hb).
    rewrite (bind_Ok _ _ _ _ _ Hb').
    pose proof (createForecastLocations_eq bounds LAT_GRID_INCREMENT
                  LNG_GRID_INCREMENT s) as Hl.
    rewrite Hlas, Hlos in Hl. rewrite (bind_Ok _ _ _ _ _ Hl).
    destruct (getForecastsFromGrib_fulfilled getForecastItemsFromGrib CPU_COUNT
                sched gribFile _ _
                (proj1 (grid_fulfilled_spec las los (heap s) (cachedForecasts s)) Hg))
      as (s2 & Hs2 & _ & Hlen & Hh).
    rewrite (bind_Ok _ _ _ _ _ Hs2). unfold set_cachedForecasts, refreshed. f_equal.
    f_equal. rewrite (heap_pointwise _ _ _ Hlen Hh). cbn [heap].
    rewrite <- length_grid. apply extracted_grid.
Qed.

End RefreshOutcome.

(** X8. A refresh that succeeds has read the bounds, built the two ranges and
    extracted every point of the grid, and the store it leaves is this: the
    objects there were, unchanged, followed by one new object per grid point
    carrying the items of its extraction; [cachedForecasts] refers to the new
    objects and only to them, in grid order. *)
Theorem refreshFrom_publishes_fresh_grid gribGet getForecastItemsFromGrib
    (CPU_COUNT : nat) (sched : schedule) (gribFile : string) (s s' : Store) :
  refreshFrom gribGet getForecastItemsFromGrib CPU_COUNT sched gribFile s = (Ok tt, s') ->
  exists bounds latitudes longitudes,
    getGribBounds gribGet gribFile = Ok bounds /\
    latitudes_of bounds LAT_GRID_INCREMENT = Ok latitudes /\
    longitudes_of bounds LNG_GRID_INCREMENT = Ok longitudes /\
    Forall (fun o => exists forecastItems,
              getForecastItemsFromGrib gribFile (lat o) (lng o) = Ok forecastItems)
           (grid latitudes longitudes) /\
    heap s' = heap s ++
              map (extracted getForecastItemsFromGrib gribFile)
                  (grid latitudes longitudes) /\
    cachedForecasts s' =
      seq (length (heap s)) (length latitudes * length longitudes).
Proof.
  intros H. apply refreshFrom_Ok_iff in H as (bounds & las & los & Hb & Hlas & Hlos & Hg & ->).
  exists bounds, las, los. repeat (split; [done|]). split; [|done].
  apply Forall_forall. intros o Ho.
  unfold grid_fulfilled in Hg. rewrite forallb_forall in Hg.
  apply list_elem_of_In, Hg in Ho.
  destruct (getForecastItemsFromGrib gribFile (lat o) (lng o)) as [its|]; [|done].
  by exists its.
Qed.

Lemma refreshFrom_publishes_fresh_grid_witness :
  exists bounds latitudes longitudes,
    getGribBounds bounds_60_24 "hirlam.grb" = Ok bounds /\
    latitudes_of bounds LAT_GRID_INCREMENT = Ok latitudes /\
    longitudes_of bounds LNG_GRID_INCREMENT = Ok longitudes /\
    Forall (fun o => exists forecastItems,
              by_latitude "hirlam.grb" (lat o) (lng o) = Ok forecastItems)
           (grid latitudes longitudes) /\
    heap (snd (refreshFrom bounds_60_24 by_latitude 4 shuffled "hirlam.grb" snapshot1))
      = heap snapshot1 ++
        map (extracted by_latitude "hirlam.grb") (grid latitudes longitudes) /\
    cachedForecasts
      (snd (refreshFrom bounds_60_24 by_latitude 4 shuffled "hirlam.grb" snapshot1))
      = seq (length (heap snapshot1)) (length latitudes * length longitudes).
Proof.
  exact (refreshFrom_publishes_fresh_grid bounds_60_24 by_latitude 4 shuffled
           "hirlam.grb" snapshot1
           (snd (refreshFrom bounds_60_24 by_latitude 4 shuffled "hirlam.grb" snapshot1))
           ltac:(vm_compute; reflexivity)).
Defined.

(** X9. Whether a refresh succeeds, and the store a successful refresh leaves,
    do not depend on the concurrency limit or on the order in which the
    extractions settle. *)
Theorem refreshFrom_schedule_independent gribGet getForecastItemsFromGrib
    (cpus1 cpus2 : nat) (sched1 sched2 : schedule) (gribFile : string) (s : Store) :
  match refreshFrom gribGet getForecastItemsFromGrib cpus1 sched1 gribFile s with
  | (Ok _, s') =>
      refreshFrom gribGet getForecastItemsFromGrib cpus2 sched2 gribFile s = (Ok tt, s')
  | (Err _, _) =>
      exists e s',
        refreshFrom gribGet getForecastItemsFromGrib cpus2 sched2 gribFile s = (Err e, s')
  end.
Proof.
  destruct (refreshFrom gribGet getForecastItemsFromGrib cpus1 sched1 gribFile s)
    as [[[]|e1] s1] eqn:E1.
  - apply refreshFrom_Ok_iff. by apply refreshFrom_Ok_iff in E1.
  - destruct (refreshFrom gribGet getForecastItemsFromGrib cpus2 sched2 gribFile s)
      as [[[]|e2] s2] eqn:E2; [|by eauto].
    apply refreshFrom_Ok_iff in E2. apply (refreshFrom_Ok_iff _ _ _ cpus1 sched1) in E2.
    rewrite E1 in E2. done.
Qed.

(** ** Where the error of a failed refresh comes from *)

Section RefreshErrors.

Variable getForecastItemsFromGrib :
  string -> float -> float -> result (list ForecastItem).
Variable gribFile : string.

Lemma all_fulfilled_false locations s :
  (forall r, r ∈ locations -> is_Some (heap s !! r)) ->
  all_fulfilled getForecastItemsFromGrib gribFile locations s = false ->
  exists r o e, r ∈ locations /\ heap s !! r = Some o /\
    getForecastItemsFromGrib gribFile (lat o) (lng o) = Err e.
Proof.
  unfold all_fulfilled. induction locations as [|x l IH]; intros Hv H; [done|].
  cbn [forallb] in H. apply andb_false_iff in H as [H|H].
  - destruct (Hv x (list_elem_of_here _ _)) as [o Ho]. rewrite Ho in H.
    destruct (getForecastItemsFromGrib gribFile (lat o) (lng o)) as [its|e] eqn:E;
      [done|].
    exists x, o, e. split; [apply list_elem_of_here|done].
  - destruct IH as (r & o & e & Hr & Ho & He); [|done|].
    { intros r Hr. apply Hv. by apply list_elem_of_further. }
    exists r, o, e. split; [by apply list_elem_of_further|done].
Qed.

(** The error that rejects the settling is the error of the extraction at
    one of the locations. *)
Lemma settle_Err_inv locations order : forall results s e s',
  (forall r, r ∈ locations -> is_Some (heap s !! r)) ->
  settle (extractInto getForecastItemsFromGrib gribFile) locations order results s
    = (Err e, s') ->
  exists r o, r ∈ locations /\ heap s !! r = Some o /\
    getForecastItemsFromGrib gribFile (lat o) (lng o) = Err e.
Proof.
  induction order as [|j order IH]; intros results s e s' Hv H; [done|].
  cbn [settle] in H.
  destruct (locations !! j) as [x|] eqn:Hx; [|by eapply IH].
  pose proof (list_elem_of_lookup_2 _ _ _ Hx) as Hin.
  apply bind_inv in H as [(e1 & H & He)|(y & s1 & H & Hrest)];
    rewrite extractInto_eq in H;
    destruct (Hv x Hin) as [ox Hox]; rewrite Hox in H;
    destruct (getForecastItemsFromGrib gribFile (lat ox) (lng ox)) as [its|e2] eqn:E;
    try done.
  - inversion H; subst. inversion He; subst. by exists x, ox.
  - inversion H; subst y s1. clear H.
    apply IH in Hrest as (r & o & Hr & Ho & He).
    + cbn [heap] in Ho. destruct (decide (r = x)) as [->|Hne].
      * rewrite list_lookup_insert_eq in Ho by (by eapply lookup_lt_Some).
        injection Ho as <-. by exists x, ox.
      * rewrite list_lookup_insert_ne in Ho by done. by exists r, o.
    + intros r Hr. cbn [heap]. apply lookup_lt_is_Some.
      rewrite length_insert. apply lookup_lt_is_Some. by apply Hv.
Qed.

(** [Promise.map] rejects with the error of an extraction, never with an
    error of its own. *)
Lemma getForecastsFromGrib_Err_inv CPU_COUNT (sched : schedule) locations s e s' :
  (forall r, r ∈ locations -> is_Some (heap s !! r)) ->
  getForecastsFromGrib getForecastItemsFromGrib CPU_COUNT sched locations gribFile s
    = (Err e, s') ->
  exists r o, r ∈ locations /\ heap s !! r = Some o /\
    getForecastItemsFromGrib gribFile (lat o) (lng o) = Err e.
Proof.
  intros Hv H. pose proof H as H'.
  unfold getForecastsFromGrib, Promise_map in H.
  apply bind_inv in H as [(e1 & H & He)|(results & s1 & H & _)].
  { inversion He; subst e1. by eapply settle_Err_inv. }
  exfalso.
  destruct (all_fulfilled getForecastItemsFromGrib gribFile locations s) eqn:Hall.
  - destruct (getForecastsFromGrib_fulfilled getForecastItemsFromGrib CPU_COUNT
                sched gribFile locations s
                (all_fulfilled_spec _ _ _ _ Hall)) as (s2 & Hs2 & _).
    rewrite Hs2 in H'. done.
  - apply all_fulfilled_false in Hall as (r & o & e0 & Hr & Ho & He0); [|done].
    apply list_elem_of_lookup_1 in Hr as [i Hi].
    destruct (settle_rejected getForecastItemsFromGrib gribFile locations
                (settle_order (sched CPU_COUNT) 0 (length locations)
                   (seq 0 (length locations)))
                (replicate (length locations) None) s i r o e0) as (e' & s2 & Hs);
      try done.
    { apply settle_order_complete. by eapply lookup_lt_Some. }
    rewrite Hs in H. done.
Qed.

End RefreshErrors.

(** X10. The error of a refresh that fails is the error of the metadata
    query, or the error of one of the two ranges, or the error of the
    extraction at one of the points of the grid: the pipeline adds no error
    of its own. *)
Theorem refreshFrom_error_provenance gribGet getForecastItemsFromGrib
    (CPU_COUNT : nat) (sched : schedule) (gribFile : string) (s : Store) e s' :
  refreshFrom gribGet getForecastItemsFromGrib CPU_COUNT sched gribFile s = (Err e, s') ->
  gribGet ["-p"; boundsKeys; gribFile] = Err e \/
  exists bounds,
    getGribBounds gribGet gribFile = Ok bounds /\
    (latitudes_of bounds LAT_GRID_INCREMENT = Err e \/
     longitudes_of bounds LNG_GRID_INCREMENT = Err e \/
     exists latitudes longitudes o,
       latitudes_of bounds LAT_GRID_INCREMENT = Ok latitudes /\
       longitudes_of bounds LNG_GRID_INCREMENT = Ok longitudes /\
       o ∈ grid latitudes longitudes /\
       getForecastItemsFromGrib gribFile (lat o) (lng o) = Err e).
Proof.
  unfold refreshFrom. intros H.
  apply bind_inv in H as [(e1 & H & He)|(bounds & s1 & Hb & H)].
  { left. inversion He; subst e1. unfold lift, getGribBounds in H.
    destruct (gribGet ["-p"; boundsKeys; gribFile]); by inversion H. }
  right. exists bounds.
  unfold lift in Hb. inversion Hb as [[Hb' Hs1]]. subst s1. clear Hb.
  split; [done|].
  apply bind_inv in H as [(e1 & H & He)|(locations & s1 & Hl & H)].
  { inversion He; subst e1. rewrite createForecastLocations_eq in H.
    destruct (latitudes_of _ _) as [las|]; [|left; by inversion H].
    destruct (longitudes_of _ _) as [los|]; [done|right; left; by inversion H]. }
  rewrite createForecastLocations_eq in Hl.
  destruct (latitudes_of _ _) as [las|]; [|done].
  destruct (longitudes_of _ _) as [los|]; [|done].
  inversion Hl; subst locations s1. clear Hl.
  right. right. exists las, los.
  apply bind_inv in H as [(e1 & H & He)|(forecasts & s2 & _ & H)]; [|done].
  inversion He; subst e1.
  apply getForecastsFromGrib_Err_inv in H as (r & o & Hr & Ho & Hits).
  - exists o. repeat (split; [done|]). split; [|done].
    cbn [heap] in Ho. apply elem_of_seq in Hr.
    rewrite lookup_app_r in Ho by lia. by eapply list_elem_of_lookup_2.
  - intros r Hr. cbn [heap]. apply lookup_lt_is_Some. apply elem_of_seq in Hr.
    rewrite length_app, length_grid. lia.
Qed.

Lemma refreshFrom_error_provenance_witness :
  bounds_60_24 ["-p"; boundsKeys; "hirlam.grb"] = Err (ExternalError "grib_get failed") \/
  exists bounds,
    getGribBounds bounds_60_24 "hirlam.grb" = Ok bounds /\
    (latitudes_of bounds LAT_GRID_INCREMENT = Err (ExternalError "grib_get failed") \/
     longitudes_of bounds LNG_GRID_INCREMENT = Err (ExternalError "grib_get failed") \/
     exists latitudes longitudes o,
       latitudes_of bounds LAT_GRID_INCREMENT = Ok latitudes /\
       longitudes_of bounds LNG_GRID_INCREMENT = Ok longitudes /\
       o ∈ grid latitudes longitudes /\
       rejects_60_2 "hirlam.grb" (lat o) (lng o) = Err (ExternalError "grib_get failed")).
Proof.
  exact (refreshFrom_error_provenance bounds_60_24 rejects_60_2 4 shuffled
           "hirlam.grb" snapshot1 (ExternalError "grib_get failed")
           (snd (refreshFrom bounds_60_24 rejects_60_2 4 shuffled "hirlam.grb" snapshot1))
           ltac:(vm_compute; reflexivity)).
Defined.

(** ** Binary64: operations that do not produce NaN *)

Lemma shr_1_nonneg mrs : 0 <= shr_m mrs -> 0 <= shr_m (shr_1 mrs).
Proof. destruct mrs as [[|[p|p|]|p] r s]; cbn; lia. Qed.

Lemma iter_pos_shr_1_nonneg p : forall mrs,
  0 <= shr_m mrs -> 0 <= shr_m (SpecFloat.iter_pos shr_1 p mrs).
Proof.
  induction p as [p IH|p IH|]; intros mrs H; cbn.
  - do 2 apply IH. by apply shr_1_nonneg.
  - by do 2 apply IH.
  - by apply shr_1_nonneg.
Qed.

Lemma shr_fexp_nonneg prec emax m e l :
  0 <= m -> 0 <= shr_m (fst (shr_fexp prec emax m e l)).
Proof.
  intros H. unfold shr_fexp, shr.
  assert (0 <= shr_m (shr_record_of_loc m l)) as H' by (by destruct l as [|[]]).
  destruct (fexp prec emax (Zdigits2 m + e) - e); cbn [fst]; try done.
  by apply iter_pos_shr_1_nonneg.
Qed.

Lemma round_nearest_even_nonneg m l : 0 <= m -> 0 <= round_nearest_even m l.
Proof.
  intros H. destruct l as [|[]]; cbn; try lia. destruct (Z.even m); lia.
Qed.

Lemma binary_round_aux_not_nan prec emax sx mx ex lx :
  0 <= mx -> binary_round_aux prec emax sx mx ex lx <> S754_nan.
Proof.
  intros H. unfold binary_round_aux.
  pose proof (shr_fexp_nonneg prec emax mx ex lx H) as H1.
  destruct (shr_fexp prec emax mx ex lx) as [mrs' e']. cbn [fst] in H1.
  pose proof (shr_fexp_nonneg prec emax
                (round_nearest_even (shr_m mrs') (loc_of_shr_record mrs')) e' loc_Exact
                (round_nearest_even_nonneg _ _ H1)) as H2.
  destruct (shr_fexp prec emax _ e' loc_Exact) as [mrs'' e'']. cbn [fst] in H2.
  destruct (shr_m mrs'') as [|m|m]; [done| |lia].
  by destruct (e'' <=? emax - prec).
Qed.

Lemma binary_normalize_not_nan prec emax m e szero :
  binary_normalize prec emax m e szero <> S754_nan.
Proof.
  unfold binary_normalize, binary_round.
  destruct m as [|m|m]; [done|..];
    destruct (shl_align _ _ _) as [mz ez]; by apply binary_round_aux_not_nan.
Qed.

(** A number plus, times or divided by a number that is finite and not zero
    is a number. *)
Lemma SFadd_not_nan x sy my ey :
  x <> S754_nan -> SFadd prec emax x (S754_finite sy my ey) <> S754_nan.
Proof.
  destruct x as [s|s| |s m e]; try done. intros _. cbn.
  apply binary_normalize_not_nan.
Qed.

Lemma SFmul_not_nan x sy my ey :
  x <> S754_nan -> SFmul prec emax x (S754_finite sy my ey) <> S754_nan.
Proof.
  destruct x as [s|s| |s m e]; try done. intros _. cbn.
  by apply binary_round_aux_not_nan.
Qed.

Lemma SFdiv_not_nan x sy my ey :
  x <> S754_nan -> SFdiv prec emax x (S754_finite sy my ey) <> S754_nan.
Proof.
  destruct x as [s|s| |s m e]; try done. intros _. unfold SFdiv, SFdiv_core_binary.
  set (m' := match _ - _ - _ with Z0 => _ | Zpos _ => _ | Zneg _ => _ end).
  assert (0 <= m') as Hm'.
  { unfold m'. destruct (_ - _ - _); try done. apply Z.shiftl_nonneg. lia. }
  pose proof (Z_div_mod m' (Z.pos my) ltac:(lia)) as Hq.
  destruct (Z.div_eucl m' (Z.pos my)) as [q r].
  apply binary_round_aux_not_nan. nia.
Qed.

Lemma of_uint63_not_nan n : PrimFloat.is_nan (of_uint63 n) = false.
Proof.
  apply is_nan_Prim2SF. rewrite FloatAxioms.of_uint63_spec.
  apply binary_normalize_not_nan.
Qed.

Lemma opp_not_nan x : PrimFloat.is_nan x = false -> PrimFloat.is_nan (- x) = false.
Proof.
  rewrite !is_nan_Prim2SF, FloatAxioms.opp_spec. by destruct (Prim2SF x).
Qed.

Lemma Math_round_not_nan x :
  PrimFloat.is_nan x = false -> PrimFloat.is_nan (JS.Math_round x) = false.
Proof.
  intros Hx. unfold JS.Math_round.
  destruct (Prim2SF x) as [s|s| |s m e]; try done.
  destruct (0 <=? e); [done|]. unfold JS.float_of_int.
  destruct s; [apply opp_not_nan|]; apply of_uint63_not_nan.
Qed.

Lemma roundTo1Decimal_not_nan num :
  PrimFloat.is_nan num = false -> PrimFloat.is_nan (roundTo1Decimal num) = false.
Proof.
  intros H. unfold roundTo1Decimal.
  assert (PrimFloat.is_nan (num * 10) = false) as H1.
  { apply is_nan_Prim2SF. rewrite FloatAxioms.mul_spec.
    apply is_nan_Prim2SF in H. by apply SFmul_not_nan. }
  apply Math_round_not_nan in H1.
  apply is_nan_Prim2SF. rewrite FloatAxioms.div_spec.
  apply is_nan_Prim2SF in H1. by apply SFdiv_not_nan.
Qed.

Lemma or_zero_not_nan x : PrimFloat.is_nan (JS.or_zero x) = false.
Proof.
  unfold JS.or_zero. destruct (PrimFloat.is_nan x) eqn:E; [done|].
  by destruct (PrimFloat.is_zero x).
Qed.

Lemma add_finite_not_nan x step :
  PrimFloat.is_nan x = false -> finiteb step = true ->
  PrimFloat.is_nan (x + step) = false.
Proof.
  rewrite !is_nan_Prim2SF, FloatAxioms.add_spec. unfold finiteb.
  intros Hx Hs. destruct (Prim2SF step) as [s|s| |s m e] eqn:E; try done.
  - by destruct (Prim2SF x) as [[]|[]| |[] ? ?], s.
  - by apply SFadd_not_nan.
Qed.

Lemma range_fill_not_nan n : forall start step,
  PrimFloat.is_nan start = false -> finiteb step = true ->
  Forall (fun v => PrimFloat.is_nan v = false) (Lodash.range_fill n start step).
Proof.
  induction n as [|n IH]; intros start step Hs Hstep; cbn; [done|].
  constructor; [done|]. apply IH; [|done]. by apply add_finite_not_nan.
Qed.

Lemma or_zero_finite step : finiteb step = true -> finiteb (JS.or_zero step) = true.
Proof.
  intros H. unfold JS.or_zero.
  by destruct (PrimFloat.is_nan step || PrimFloat.is_zero step).
Qed.

(** The values of a range with a finite step are numbers. *)
Lemma range_not_nan start end_ step values :
  finiteb step = true ->
  Lodash.range start end_ step = Ok values ->
  Forall (fun v => PrimFloat.is_nan v = false) values.
Proof.
  intros Hstep. unfold Lodash.range.
  destruct end_ as [|e];
    destruct (JS.array_length _) as [n|]; cbn [mbind result_bind]; try done;
    intros [= <-]; apply range_fill_not_nan;
    auto using or_zero_not_nan, or_zero_finite.
Qed.

(** ** The stores that the module reaches *)

Lemma elem_of_grid o latitudes longitudes :
  o ∈ grid latitudes longitudes -> lat o ∈ latitudes /\ lng o ∈ longitudes.
Proof.
  unfold grid. intros H.
  apply list_elem_of_In, in_concat in H as (row & Hrow & Ho).
  apply in_map_iff in Hrow as (la & <- & Hla).
  apply in_map_iff in Ho as (lo & <- & Hlo).
  split; by apply list_elem_of_In.
Qed.

Lemma rounded_range_not_nan start end_ step values :
  finiteb step = true ->
  map roundTo1Decimal <$> Lodash.range start end_ step = Ok values ->
  Forall (fun v => PrimFloat.is_nan v = false) values.
Proof.
  intros Hstep H.
  destruct (Lodash.range start end_ step) as [vs|] eqn:E; [|done].
  injection H as <-. apply range_not_nan in E; [|done].
  apply Forall_fmap. eapply Forall_impl; [exact E|].
  intros v Hv. by apply roundTo1Decimal_not_nan.
Qed.

Lemma cached_sound_initial : cached_sound initial.
Proof. split; [constructor|]. intros r Hr. by apply elem_of_nil in Hr. Qed.

Lemma cached_sound_getForecasts bounds startTime s res s' :
  getForecasts bounds startTime s = (res, s') ->
  cached_sound s -> cached_sound s'.
Proof.
  intros H [Hnd Hs]. destruct res as [refs|e].
  - apply getForecasts_queried in H as ->. split; [done|].
    intros r Hr. destruct (Hs r Hr) as (o & its & Ho & Hits & Hla & Hlo).
    rewrite lookup_queried, Ho. cbn.
    destruct (bool_decide (r ∈ refs)); [|by exists o, its].
    by exists (kept (Moment.moment (default 0 startTime)) o),
      (itemsAfter (Moment.moment (default 0 startTime)) (items o)).
  - by apply getForecasts_Err in H as [-> _].
Qed.

Lemma cached_sound_refreshFrom gribGet getForecastItemsFromGrib CPU_COUNT
    (sched : schedule) gribFile s res s' :
  refreshFrom gribGet getForecastItemsFromGrib CPU_COUNT sched gribFile s = (res, s') ->
  cached_sound s -> cached_sound s'.
Proof.
  intros H [Hnd Hs]. destruct res as [[]|e].
  - apply refreshFrom_Ok_iff in H as (bounds & las & los & Hb & Hlas & Hlos & Hg & ->).
    unfold cached_sound, refreshed. cbn [heap cachedForecasts].
    split; [apply NoDup_seq|].
    intros r Hr. apply elem_of_seq in Hr.
    destruct (lookup_lt_is_Some_2 (grid las los) (r - length (heap s))) as [o Ho].
    { rewrite length_grid. lia. }
    pose proof (list_elem_of_lookup_2 _ _ _ Ho) as Hin.
    unfold grid_fulfilled in Hg. rewrite forallb_forall in Hg.
    pose proof (Hg o (proj1 (list_elem_of_In _ _) Hin)) as Hits.
    destruct (getForecastItemsFromGrib gribFile (lat o) (lng o)) as [its|] eqn:E;
      [|done].
    exists {| lat := lat o; lng := lng o; items := Some its |}, its.
    split.
    { rewrite lookup_app_r, list_lookup_fmap, Ho by lia. cbn.
      unfold extracted. by rewrite E. }
    split; [done|]. cbn [lat lng].
    apply elem_of_grid in Hin as [Hla Hlo].
    apply rounded_range_not_nan in Hlas, Hlos; try done.
    rewrite Forall_forall in Hlas, Hlos. auto.
  - apply refreshFrom_Err_unchanged in H as [Hc Hh].
    split; [by rewrite Hc|]. rewrite Hc. intros r Hr.
    destruct (Hs r Hr) as (o & its & Ho & Hits & Hla & Hlo).
    exists o, its. split; [by apply Hh|done].
Qed.

Lemma reachable_sound s : reachable s -> cached_sound s.
Proof.
  induction 1 as [|bounds startTime s res s' _ IH H|g x c sc f s res s' _ IH H].
  - apply cached_sound_initial.
  - by eapply cached_sound_getForecasts.
  - by eapply cached_sound_refreshFrom.
Qed.

Lemma cached_sound_cache_ok s : cached_sound s -> cache_ok s = true.
Proof.
  intros [_ Hs]. unfold cache_ok. apply forallb_forall. intros r Hr.
  apply list_elem_of_In in Hr. destruct (Hs r Hr) as (o & its & -> & _ & Hla & Hlo).
  unfold numeric_point, point_of. cbn. by rewrite Hla, Hlo.
Qed.

(** A store reached by a refresh of a grid of six points. *)
Lemma reachable_refreshed_grid :
  reachable (snd (refreshFrom bounds_60_24 by_latitude 4 shuffled "hirlam.grb" initial)).
Proof.
  apply (reachable_refreshFrom bounds_60_24 by_latitude 4 shuffled "hirlam.grb"
           initial
           (fst (refreshFrom bounds_60_24 by_latitude 4 shuffled "hirlam.grb" initial))
           _ reachable_initial).
  by vm_compute.
Defined.

(** X11. In every store that calls of [refreshFrom] and [getForecasts] reach,
    whatever their arguments, the behaviour of the external tool and their
    outcomes, no reference is cached twice, and every cached reference points
    to an object that has an [items] array and whose [lat] and [lng] are
    numbers, never NaN. *)
Theorem reachable_cache_is_sound s :
  reachable s ->
  NoDup (cachedForecasts s) /\
  forall r, r ∈ cachedForecasts s -> exists o forecastItems,
    heap s !! r = Some o /\ items o = Some forecastItems /\
    PrimFloat.is_nan (lat o) = false /\ PrimFloat.is_nan (lng o) = false.
Proof.
  intros Hs. change (cached_sound s).
  induction Hs as [|bounds startTime s res s' _ IH H|g x c sc f s res s' _ IH H].
  - apply cached_sound_initial.
  - by apply (cached_sound_getForecasts bounds startTime s res s').
  - by apply (cached_sound_refreshFrom g x c sc f s res s').
Qed.

Lemma reachable_cache_is_sound_witness :
  NoDup (cachedForecasts
           (snd (refreshFrom bounds_60_24 by_latitude 4 shuffled "hirlam.grb" initial))) /\
  forall r,
    r ∈ cachedForecasts
          (snd (refreshFrom bounds_60_24 by_latitude 4 shuffled "hirlam.grb" initial)) ->
    exists o forecastItems,
      heap (snd (refreshFrom bounds_60_24 by_latitude 4 shuffled "hirlam.grb" initial))
        !! r = Some o /\
      items o = Some forecastItems /\
      PrimFloat.is_nan (lat o) = false /\ PrimFloat.is_nan (lng o) = false.
Proof.
  exact (reachable_cache_is_sound _ reachable_refreshed_grid).
Defined.

(** X12. On every store that the module reaches, a query whose box holds
    four numbers returns: it never throws. *)
Theorem getForecasts_returns_on_reachable bounds startTime s :
  reachable s -> numeric_box bounds = true ->
  exists refs s', getForecasts bounds startTime s = (Ok refs, s').
Proof.
  intros Hs Hb. apply getForecasts_total; [done|].
  by apply cached_sound_cache_ok, reachable_sound.
Qed.

Lemma getForecasts_returns_on_reachable_witness :
  exists refs s',
    getForecasts box_60_24_61_25 (Some 1000)
      (snd (refreshFrom bounds_60_24 by_latitude 4 shuffled "hirlam.grb" initial))
    = (Ok refs, s').
Proof.
  exact (getForecasts_returns_on_reachable box_60_24_61_25 (Some 1000) _
           reachable_refreshed_grid ltac:(vm_compute; reflexivity)).
Defined.

(** ** A grid without extent *)

Lemma sub_diag_finite a : finiteb a = true -> (a - a)%float = 0%float.
Proof.
  unfold finiteb. intros H. apply Prim2SF_inj. rewrite FloatAxioms.sub_spec.
  change (Prim2SF 0) with (S754_zero false).
  destruct (Prim2SF a) as [[]|?| |s m e]; try done.
  unfold SF64sub, SFsub. by rewrite Z.sub_diag.
Qed.

Lemma array_length_zero_div step1 :
  PrimFloat.is_nan step1 = false -> PrimFloat.is_zero step1 = false ->
  JS.array_length (0 / step1) = Ok 0%nat.
Proof.
  intros Hn Hz. unfold JS.array_length. rewrite FloatAxioms.div_spec.
  change (Prim2SF 0) with (S754_zero false).
  apply is_nan_Prim2SF in Hn.
  unfold PrimFloat.is_zero in Hz. rewrite FloatAxioms.eqb_spec in Hz.
  change (Prim2SF 0) with (S754_zero false) in Hz.
  by destruct (Prim2SF step1) as [[]|[]| |[] ? ?].
Qed.

Lemma step1_nonzero step :
  let step' := JS.or_zero step in
  let step1 := if PrimFloat.is_zero step' then 1%float else step' in
  PrimFloat.is_nan step1 = false /\ PrimFloat.is_zero step1 = false.
Proof.
  intros step' step1. unfold step1.
  destruct (PrimFloat.is_zero step') eqn:E; [done|].
  split; [apply or_zero_not_nan|done].
Qed.

(** A range between two ends that are the same number is empty, whatever
    the step. *)
Lemma range_same_ends start end_ step :
  finiteb (JS.or_zero (JS.to_number start)) = true ->
  JS.or_zero (JS.to_number end_) = JS.or_zero (JS.to_number start) ->
  Lodash.range start end_ step = Ok [].
Proof.
  intros Hf He. unfold Lodash.range.
  destruct (step1_nonzero step) as [Hn Hz].
  destruct end_ as [|e]; cbn [JS.to_number] in He.
  - change (JS.or_zero nan) with 0%float in He. rewrite <- He.
    rewrite sub_diag_finite by done.
    by rewrite array_length_zero_div.
  - rewrite He, sub_diag_finite by done.
    by rewrite array_length_zero_div.
Qed.

(** X13. A grid file whose two latitudes are the same number (or both
    unreadable, which [_.range] takes for 0) gives an empty grid: when the
    range of longitudes does not throw, the refresh succeeds, whatever the
    extraction would do, and publishes an empty cache; the objects of the
    previous snapshot stay in the heap, no longer cached. *)
Theorem refreshFrom_flat_grid_empties_cache gribGet getForecastItemsFromGrib
    (CPU_COUNT : nat) (sched : schedule) (gribFile : string) (s : Store)
    bounds longitudes :
  getGribBounds gribGet gribFile = Ok bounds ->
  finiteb (JS.or_zero (JS.to_number (Bounds.lat (Bounds.swCorner bounds)))) = true ->
  JS.or_zero (JS.to_number (Bounds.lat (Bounds.neCorner bounds))) =
    JS.or_zero (JS.to_number (Bounds.lat (Bounds.swCorner bounds))) ->
  longitudes_of bounds LNG_GRID_INCREMENT = Ok longitudes ->
  refreshFrom gribGet getForecastItemsFromGrib CPU_COUNT sched gribFile s =
  (Ok tt, {| heap := heap s; cachedForecasts := [] |}).
Proof.
  intros Hb Hf He Hlos.
  apply refreshFrom_Ok_iff. exists bounds, [], longitudes.
  split; [done|]. split.
  { unfold latitudes_of. by rewrite range_same_ends. }
  split; [done|]. split; [done|].
  unfold refreshed. cbn. by rewrite app_nil_r.
Qed.

(** The extraction is rejected at every point, and is never called. *)
Lemma refreshFrom_flat_grid_empties_cache_witness :
  refreshFrom (fun _ => Ok "60 24 60 25")
    (fun _ _ _ => Err (ExternalError "grib_get failed")) 4 shuffled
    "hirlam.grb" snapshot1 =
  (Ok tt, {| heap := heap snapshot1; cachedForecasts := [] |}).
Proof.
  exact (refreshFrom_flat_grid_empties_cache (fun _ => Ok "60 24 60 25")
           (fun _ _ _ => Err (ExternalError "grib_get failed")) 4 shuffled
           "hirlam.grb" snapshot1 (box 60 24 60 25) [24; 24.5]%float
           ltac:(vm_compute; reflexivity) ltac:(vm_compute; reflexivity)
           ltac:(vm_compute; reflexivity) ltac:(vm_compute; reflexivity)).
Defined.

(** ** A refresh and then a query *)

(** X14. The first query after a refresh that succeeded returns locations of
    the new grid only; each of them lies inside the polygon of the box and
    holds exactly the items that the extraction returned for its [lat] and
    [lng] and that are dated after the start time, in the extraction's
    order: the start time and the item's time are valid dates (at most
    8.64e15 milliseconds away from the epoch) and the item's time is
    strictly greater. *)
Theorem getForecasts_after_refreshFrom gribGet getForecastItemsFromGrib
    (CPU_COUNT : nat) (sched : schedule) (gribFile : string)
    bounds startTime (s s1 s2 : Store) refs r :
  refreshFrom gribGet getForecastItemsFromGrib CPU_COUNT sched gribFile s = (Ok tt, s1) ->
  getForecasts bounds startTime s1 = (Ok refs, s2) ->
  r ∈ refs ->
  (length (heap s) <= r)%nat /\
  exists o forecastItems,
    heap s2 !! r = Some o /\
    Geolib.isPointInside (point_of o) (corners bounds) = Ok true /\
    getForecastItemsFromGrib gribFile (lat o) (lng o) = Ok forecastItems /\
    items o =
      Some (filter (fun item =>
                      in_Date_range (default 0 startTime) /\
                      in_Date_range (time item) /\
                      default 0 startTime < time item) forecastItems).
Proof.
  intros Hr Hq Hin.
  pose proof (refreshFrom_Ok_complete _ _ _ _ _ _ _ Hr) as Hcomplete.
  apply refreshFrom_Ok_iff in Hr as (gb & las & los & _ & _ & _ & _ & Hs1).
  apply getForecasts_Ok in Hq as (Hrefs & _ & _ & Hh).
  pose proof Hin as Hin'. rewrite Hrefs in Hin'.
  apply list_elem_of_filter in Hin' as [Hp Hc].
  split.
  { rewrite Hs1 in Hc. cbn in Hc. apply elem_of_seq in Hc. lia. }
  destruct (Hcomplete r Hc) as (o & its & Ho & Hits & Hex).
  exists (kept (Moment.moment (default 0 startTime)) o), its.
  split. { by rewrite (Hh r o Ho), bool_decide_eq_true_2. }
  split.
  { unfold in_polygon in Hp. rewrite Ho in Hp. rewrite point_of_kept.
    by destruct (Geolib.isPointInside (point_of o) (corners bounds)) as [[]|]. }
  split; [done|]. unfold kept. cbn [items].
  by rewrite itemsAfter_spec, Hits.
Qed.

(** The grid from (60, 24) to (60.5, 25) on top of [snapshot1], and the
    query from 1000 on the box (60, 24)-(60.1, 25): the location (60, 24.5),
    the second of the new grid, is returned with its item dated 2000. *)
Lemma getForecasts_after_refreshFrom_witness :
  (length (heap snapshot1) <= 2)%nat /\
  exists o forecastItems,
    heap (snd (getForecasts (box 60 24 60.1 25) (Some 1000)
                 (snd (refreshFrom bounds_60_24 by_latitude 4 shuffled
                         "hirlam.grb" snapshot1)))) !! 2%nat = Some o /\
    Geolib.isPointInside (point_of o) (corners (box 60 24 60.1 25)) = Ok true /\
    by_latitude "hirlam.grb" (lat o) (lng o) = Ok forecastItems /\
    items o =
      Some (filter (fun item =>
                      in_Date_range (default 0 (Some 1000)) /\
                      in_Date_range (time item) /\
                      default 0 (Some 1000) < time item) forecastItems).
Proof.
  exact (getForecasts_after_refreshFrom bounds_60_24 by_latitude 4 shuffled
           "hirlam.grb" (box 60 24 60.1 25) (Some 1000) snapshot1
           (snd (refreshFrom bounds_60_24 by_latitude 4 shuffled "hirlam.grb" snapshot1))
           (snd (getForecasts (box 60 24 60.1 25) (Some 1000)
                   (snd (refreshFrom bounds_60_24 by_latitude 4 shuffled
                           "hirlam.grb" snapshot1))))
           [1%nat; 2%nat] 2%nat
           ltac:(vm_compute; reflexivity) ltac:(vm_compute; reflexivity)
           ltac:(apply list_elem_of_further, list_elem_of_here)).
Defined.

(** ** A refresh that fails, and then a query *)

Lemma getForecasts_on_extended_heap bounds startTime s s1 res s2 :
  (forall r, r ∈ cachedForecasts s -> is_Some (heap s !! r)) ->
  cachedForecasts s1 = cachedForecasts s ->
  (forall r o, heap s !! r = Some o -> heap s1 !! r = Some o) ->
  getForecasts bounds startTime s = (res, s2) ->
  exists s12,
    getForecasts bounds startTime s1 = (res, s12) /\
    cachedForecasts s12 = cachedForecasts s2 /\
    forall r o, heap s2 !! r = Some o -> heap s12 !! r = Some o.
Proof.
  intros Hv Hc Hh H.
  assert (fst (getForecasts bounds startTime s1) = res) as Hres.
  { rewrite getForecasts_selection, Hc.
    rewrite (filter_st_inBounds_coords _ _ s1 s).
    - by rewrite <- (getForecasts_selection bounds startTime s), H.
    - intros r Hr. destruct (Hv r Hr) as [o Ho]. by rewrite Ho, (Hh r o Ho). }
  destruct (getForecasts bounds startTime s1) as [res' s12] eqn:E.
  cbn in Hres. subst res'. exists s12. split; [done|].
  destruct res as [refs|e].
  - apply getForecasts_queried in H as ->. apply getForecasts_queried in E as ->.
    split; [done|]. intros r o. rewrite !lookup_queried.
    destruct (heap s !! r) as [o0|] eqn:Ho0; [|done].
    by rewrite (Hh r o0 Ho0).
  - apply getForecasts_Err in H as [-> _]. apply getForecasts_Err in E as [-> _].
    done.
Qed.

(** X15. After a refresh that failed, the module serves what it served
    before: on a store that the module reaches, a query after the failed
    refresh has the outcome it would have had without it (the same
    references, or the same error) and leaves the same cache and the same
    objects. *)
Theorem getForecasts_after_failed_refreshFrom gribGet getForecastItemsFromGrib
    (CPU_COUNT : nat) (sched : schedule) (gribFile : string)
    bounds startTime (s s1 s2 : Store) e res :
  reachable s ->
  refreshFrom gribGet getForecastItemsFromGrib CPU_COUNT sched gribFile s = (Err e, s1) ->
  getForecasts bounds startTime s = (res, s2) ->
  exists s12,
    getForecasts bounds startTime s1 = (res, s12) /\
    cachedForecasts s12 = cachedForecasts s2 /\
    forall r o, heap s2 !! r = Some o -> heap s12 !! r = Some o.
Proof.
  intros Hs Hr Hq.
  apply refreshFrom_Err_unchanged in Hr as [Hc Hh].
  apply (getForecasts_on_extended_heap bounds startTime s s1 res s2); try done.
  intros r Hin. apply reachable_sound in Hs as [_ Hs].
  destruct (Hs r Hin) as (o & _ & -> & _). by eexists.
Qed.

Lemma getForecasts_after_failed_refreshFrom_witness :
  exists s12,
    getForecasts box_60_24_61_25 (Some 1000)
      (snd (refreshFrom bounds_60_24 rejects_60_2 4 shuffled "hirlam.grb"
              (snd (refreshFrom bounds_60_24 by_latitude 4 shuffled "hirlam.grb" initial))))
    = (fst (getForecasts box_60_24_61_25 (Some 1000)
              (snd (refreshFrom bounds_60_24 by_latitude 4 shuffled "hirlam.grb" initial))),
       s12) /\
    cachedForecasts s12 =
      cachedForecasts
        (snd (getForecasts box_60_24_61_25 (Some 1000)
                (snd (refreshFrom bounds_60_24 by_latitude 4 shuffled "hirlam.grb" initial)))) /\
    forall r o,
      heap (snd (getForecasts box_60_24_61_25 (Some 1000)
                   (snd (refreshFrom bounds_60_24 by_latitude 4 shuffled "hirlam.grb" initial))))
        !! r = Some o ->
      heap s12 !! r = Some o.
Proof.
  exact (getForecasts_after_failed_refreshFrom bounds_60_24 rejects_60_2 4 shuffled
           "hirlam.grb" box_60_24_61_25 (Some 1000)
           (snd (refreshFrom bounds_60_24 by_latitude 4 shuffled "hirlam.grb" initial))
           (snd (refreshFrom bounds_60_24 rejects_60_2 4 shuffled "hirlam.grb"
                   (snd (refreshFrom bounds_60_24 by_latitude 4 shuffled "hirlam.grb" initial))))
           (snd (getForecasts box_60_24_61_25 (Some 1000)
                   (snd (refreshFrom bounds_60_24 by_latitude 4 shuffled "hirlam.grb" initial))))
           (ExternalError "grib_get failed")
           (fst (getForecasts box_60_24_61_25 (Some 1000)
                   (snd (refreshFrom bounds_60_24 by_latitude 4 shuffled "hirlam.grb" initial))))
           reachable_refreshed_grid
           ltac:(vm_compute; reflexivity) ltac:(vm_compute; reflexivity)).
Defined.

(** ** Reading the bounds off the first line *)

Lemma split_word sep w :
  forallb (fun c => negb (Ascii.eqb c sep)) w = true -> JS.split sep w = [w].
Proof.
  induction w as [|c w IH]; [done|]. cbn. intros H.
  apply andb_true_iff in H as [Hc Hw]. apply negb_true_iff in Hc.
  by rewrite Hc, IH.
Qed.

Lemma split_app sep w rest :
  forallb (fun c => negb (Ascii.eqb c sep)) w = true ->
  JS.split sep (w ++ sep :: rest) = w :: JS.split sep rest.
Proof.
  induction w as [|c w IH]; cbn.
  - intros _. by rewrite Ascii.eqb_refl.
  - intros H. apply andb_true_iff in H as [Hc Hw]. apply negb_true_iff in Hc.
    by rewrite Hc, IH.
Qed.

Lemma hd_split_line line rest :
  forallb (fun c => negb (Ascii.eqb c "010")) line = true ->
  List.hd [] (JS.split "010" (line ++ match rest with
                                      | None => []
                                      | Some r => "010"%char :: r
                                      end)) = line.
Proof.
  intros H. destruct rest as [r|].
  - by rewrite split_app.
  - by rewrite app_nil_r, split_word.
Qed.

Lemma trim_start_pad pad s :
  forallb JS.is_space pad = true ->
  match s with [] => True | c :: _ => JS.is_space c = false end ->
  JS.trim_start (pad ++ s) = s.
Proof.
  unfold JS.trim_start. intros Hp Hs.
  induction pad as [|c pad IH]; cbn [app JS.span].
  - destruct s as [|c s]; [done|]. cbn. by rewrite Hs.
  - cbn in Hp. apply andb_true_iff in Hp as [Hc Hp]. rewrite Hc.
    specialize (IH Hp). by destruct (JS.span JS.is_space (pad ++ s)).
Qed.

Lemma trim_padded pad1 core pad2 :
  forallb JS.is_space pad1 = true -> forallb JS.is_space pad2 = true ->
  match core with [] => True | c :: _ => JS.is_space c = false end ->
  match rev core with [] => True | c :: _ => JS.is_space c = false end ->
  JS.trim (pad1 ++ core ++ pad2) = core.
Proof.
  intros H1 H2 Hfirst Hlast. unfold JS.trim.
  destruct core as [|c core].
  - cbn [app].
    assert (JS.trim_start (pad1 ++ pad2) = []) as ->; [|done].
    rewrite <- (app_nil_r (pad1 ++ pad2)).
    apply trim_start_pad; [|done]. by rewrite forallb_app, H1, H2.
  - rewrite trim_start_pad; [|done|done].
    rewrite rev_app_distr.
    rewrite trim_start_pad; [by rewrite rev_involutive| |done].
    rewrite forallb_forall in H2 |- *. intros x Hx. apply H2. by apply in_rev.
Qed.

Lemma word_first w :
  word w = true -> forall rest,
  match w ++ rest with [] => True | c :: _ => JS.is_space c = false end.
Proof.
  destruct w as [|c w]; [done|]. cbn. intros H rest.
  apply andb_true_iff in H as [H _]. by apply negb_true_iff.
Qed.

Lemma word_last w :
  word w = true -> forall before,
  match rev (before ++ w) with [] => True | c :: _ => JS.is_space c = false end.
Proof.
  intros H before. rewrite rev_app_distr.
  destruct w as [|c w] using rev_ind; [done|].
  rewrite rev_app_distr. cbn.
  unfold word in H. destruct (w ++ [c]) eqn:E; [done|]. rewrite <- E in H.
  rewrite forallb_app in H. cbn in H.
  apply andb_true_iff in H as [_ H]. apply andb_true_iff in H as [H _].
  by apply negb_true_iff.
Qed.

Lemma word_no (sep : ascii) w :
  JS.is_space sep = true -> word w = true ->
  forallb (fun c => negb (Ascii.eqb c sep)) w = true.
Proof.
  intros Hsep H.
  assert (forallb (fun c => negb (JS.is_space c)) w = true) as H'
    by (by destruct w).
  rewrite forallb_forall in H' |- *. intros c Hc. specialize (H' c Hc).
  destruct (Ascii.eqb_spec c sep) as [->|]; [|done]. by rewrite Hsep in H'.
Qed.

Lemma blank_spec p :
  blank p = true ->
  forallb JS.is_space p = true /\
  forallb (fun c => negb (Ascii.eqb c "010")) p = true.
Proof.
  unfold blank. rewrite !forallb_forall. intros H.
  split; intros c Hc; specialize (H c Hc); by apply andb_true_iff in H as [? ?].
Qed.

(** X16. When the first line of the tool's output (a string of code units
    below 256) is four tokens between single spaces, with any of JavaScript's
    white space other than a newline before and after them (tab, VT, FF, CR,
    space, no-break space), the box that [getGribBounds] returns holds
    [parseFloat] of the four tokens, in the order south-west latitude,
    south-west longitude, north-east latitude, north-east longitude; what
    follows the first line is not read. A token is not empty and holds no
    white space. *)
Theorem getGribBounds_reads_four_tokens gribGet (gribFile : string)
    pad1 t0 t1 t2 t3 pad2 rest :
  blank pad1 = true -> blank pad2 = true ->
  word t0 = true -> word t1 = true -> word t2 = true -> word t3 = true ->
  gribGet ["-p"; boundsKeys; gribFile] = Ok (bounds_output pad1 t0 t1 t2 t3 pad2 rest) ->
  getGribBounds gribGet gribFile =
  Ok (box (JS.parseFloat t0) (JS.parseFloat t1) (JS.parseFloat t2) (JS.parseFloat t3)).
Proof.
  intros Hp1 Hp2 H0 H1 H2 H3 Hout.
  apply blank_spec in Hp1 as [Hs1 Hn1]. apply blank_spec in Hp2 as [Hs2 Hn2].
  unfold getGribBounds. rewrite Hout. cbn [mbind result_bind].
  unfold bounds_output. rewrite list_ascii_of_string_of_list_ascii.
  rewrite !(app_assoc _ _ (match rest with None => _ | Some _ => _ end)).
  rewrite hd_split_line.
  2:{ repeat (rewrite forallb_app; cbn [forallb]).
      rewrite Hn1, Hn2, !(word_no "010") by done. done. }
  rewrite trim_padded; try done.
  2:{ by apply word_first. }
  2:{ assert (t0 ++ " "%char :: t1 ++ " "%char :: t2 ++ " "%char :: t3 =
              (t0 ++ " "%char :: t1 ++ " "%char :: t2 ++ [" "%char]) ++ t3) as ->
        by (by simplify_list_eq).
      by apply word_last. }
  rewrite !split_app, split_word by (by apply word_no).
  done.
Qed.

Lemma getGribBounds_reads_four_tokens_witness :
  getGribBounds
    (fun _ => Ok (bounds_output (list_ascii_of_string " ")
                    (list_ascii_of_string "59.5") (list_ascii_of_string "19")
                    (list_ascii_of_string "70.1") (list_ascii_of_string "31.5")
                    (list_ascii_of_string "  ")
                    (Some (list_ascii_of_string "second line"))))
    "hirlam.grb" =
  Ok (box (JS.parseFloat (list_ascii_of_string "59.5"))
          (JS.parseFloat (list_ascii_of_string "19"))
          (JS.parseFloat (list_ascii_of_string "70.1"))
          (JS.parseFloat (list_ascii_of_string "31.5"))).
Proof.
  exact (getGribBounds_reads_four_tokens _ "hirlam.grb"
           (list_ascii_of_string " ")
           (list_ascii_of_string "59.5") (list_ascii_of_string "19")
           (list_ascii_of_string "70.1") (list_ascii_of_string "31.5")
           (list_ascii_of_string "  ")
           (Some (list_ascii_of_string "second line"))
           ltac:(vm_compute; reflexivity) ltac:(vm_compute; reflexivity)
           ltac:(vm_compute; reflexivity) ltac:(vm_compute; reflexivity)
           ltac:(vm_compute; reflexivity) ltac:(vm_compute; reflexivity)
           eq_refl).
Defined.

(** ** Boxes side by side *)

Lemma leb_trans x y z :
  PrimFloat.is_nan x = false -> PrimFloat.is_nan y = false ->
  PrimFloat.is_nan z = false ->
  (x <=? y)%float = true -> (y <=? z)%float = true -> (x <=? z)%float = true.
Proof.
  intros Hx Hy Hz Hxy Hyz.
  apply (leb_key _ _ Hx Hy) in Hxy. apply (leb_key _ _ Hy Hz) in Hyz.
  apply (leb_key _ _ Hx Hz). unfold key_lt, key_eq in *. lia.
Qed.

Lemma ltb_leb_trans x y z :
  PrimFloat.is_nan x = false -> PrimFloat.is_nan y = false ->
  PrimFloat.is_nan z = false ->
  (x <? y)%float = true -> (y <=? z)%float = true -> (x <? z)%float = true.
Proof.
  intros Hx Hy Hz Hxy Hyz.
  apply (ltb_key _ _ Hx Hy) in Hxy. apply (leb_key _ _ Hy Hz) in Hyz.
  apply (ltb_key _ _ Hx Hz). unfold key_lt, key_eq in *. lia.
Qed.

Lemma ltb_negb_leb x y :
  PrimFloat.is_nan x = false -> PrimFloat.is_nan y = false ->
  (x <? y)%float = negb (y <=? x)%float.
Proof.
  intros Hx Hy.
  destruct (x <? y)%float eqn:E1, (y <=? x)%float eqn:E2; try done; exfalso.
  - apply (ltb_key _ _ Hx Hy) in E1. apply (leb_key _ _ Hy Hx) in E2.
    unfold key_lt, key_eq in *. lia.
  - rewrite <- not_true_iff_false in E1, E2.
    rewrite (ltb_key _ _ Hx Hy) in E1. rewrite (leb_key _ _ Hy Hx) in E2.
    unfold key_lt, key_eq in *. lia.
Qed.

(** A longitude between [b] and [d], split at [m]. *)
Lemma longitude_split b m d y :
  PrimFloat.is_nan b = false -> PrimFloat.is_nan m = false ->
  PrimFloat.is_nan d = false -> PrimFloat.is_nan y = false ->
  (b <=? m)%float = true -> (m <=? d)%float = true ->
  let west := ((b <=? y) && (y <? m) || (m <=? y) && (y <? b))%float in
  let east := ((m <=? y) && (y <? d) || (d <=? y) && (y <? m))%float in
  ((b <=? y) && (y <? d) || (d <=? y) && (y <? b))%float = west || east /\
  west && east = false.
Proof.
  intros Hb Hm Hd Hy Hbm Hmd west east. unfold west, east.
  pose proof (leb_trans b m d Hb Hm Hd Hbm Hmd) as Hbd.
  destruct (between_ordered b m y Hb Hm Hy Hbm) as [-> _].
  destruct (between_ordered m d y Hm Hd Hy Hmd) as [-> _].
  destruct (between_ordered b d y Hb Hd Hy Hbd) as [-> _].
  rewrite !orb_false_r, (ltb_negb_leb y m Hy Hm).
  destruct (m <=? y)%float eqn:Emy; cbn [negb].
  - rewrite (leb_trans b m y Hb Hm Hy Hbm Emy). cbn. done.
  - assert ((y <? d)%float = true) as ->.
    { apply (ltb_leb_trans y m d Hy Hm Hd); [|done].
      by rewrite (ltb_negb_leb y m Hy Hm), Emy. }
    cbn. rewrite !andb_true_r, orb_false_r, andb_false_r. done.
Qed.

Lemma in_polygon_filter h cs (cached : list ref) r :
  r ∈ filter (fun r => in_polygon h cs r = true) cached <->
  in_polygon h cs r = true /\ r ∈ cached.
Proof.
  exact (list_elem_of_filter (fun r => in_polygon h cs r = true) cached r).
Qed.

Lemma cache_in_reach_join b m d s :
  cache_in_reach b m s = true -> cache_in_reach m d s = true ->
  cache_in_reach b d s = true.
Proof.
  unfold cache_in_reach. rewrite !forallb_forall. intros H1 H2 r Hr.
  specialize (H1 r Hr). specialize (H2 r Hr).
  destruct (heap s !! r) as [o|]; [|done].
  unfold location_in_reach in *. rewrite !andb_true_iff in *. tauto.
Qed.

(** X17. Two boxes side by side tile the box they make up: for
    sw.lng <= m <= ne.lng, boxes and cache in reach of the arithmetic of the
    test, a location is returned for the whole box exactly when it is
    returned for the part west of [m] or for the part east of it, and no
    location is returned for both parts. *)
Theorem getForecasts_tiles_along_longitude a b c m d startTime s
    refs s1 west s2 east s3 r :
  box_in_reach a b c d = true ->
  box_in_reach a b c m = true -> box_in_reach a m c d = true ->
  cache_in_reach b m s = true -> cache_in_reach m d s = true ->
  (b <=? m)%float = true -> (m <=? d)%float = true ->
  getForecasts (box a b c d) startTime s = (Ok refs, s1) ->
  getForecasts (box a b c m) startTime s = (Ok west, s2) ->
  getForecasts (box a m c d) startTime s = (Ok east, s3) ->
  (r ∈ refs <-> r ∈ west \/ r ∈ east) /\ ~ (r ∈ west /\ r ∈ east).
Proof.
  intros Hbox Hwest Heast Hcw Hce Hbm Hmd H Hw He.
  pose proof (cache_in_reach_join b m d s Hcw Hce) as Hc.
  apply getForecasts_Ok in H as (-> & _).
  apply getForecasts_Ok in Hw as (-> & _).
  apply getForecasts_Ok in He as (-> & _).
  rewrite !in_polygon_filter.
  destruct (decide (r ∈ cachedForecasts s)) as [Hr|Hr]; [|tauto].
  destruct (in_polygon_box a b c d s r Hbox Hc Hr) as (o & Ho & H).
  destruct (in_polygon_box a b c m s r Hwest Hcw Hr) as (o1 & Ho1 & Hw).
  destruct (in_polygon_box a m c d s r Heast Hce Hr) as (o2 & Ho2 & He).
  rewrite Ho in Ho1, Ho2. injection Ho1 as <-. injection Ho2 as <-.
  unfold in_polygon. rewrite Ho, H, Hw, He.
  unfold box_in_reach in Hbox, Hwest. rewrite !andb_true_iff in Hbox, Hwest.
  destruct Hbox as [[[[[_ Hfb] _] Hfd] _] _], Hwest as [[[[[_ _] _] Hfm] _] _].
  unfold cache_in_reach in Hc. rewrite forallb_forall in Hc.
  pose proof (Hc r (proj1 (list_elem_of_In _ _) Hr)) as Hy. rewrite Ho in Hy.
  unfold location_in_reach in Hy. rewrite !andb_true_iff in Hy.
  destruct Hy as [[[_ Hy] _] _].
  destruct (longitude_split b m d (lng o)) as [Hsplit Hdisj];
    try (by apply finiteb_not_nan); try done.
  cbn zeta in Hsplit, Hdisj. rewrite Hsplit.
  destruct ((b <=? lng o) && (lng o <? m) || (m <=? lng o) && (lng o <? b))%float,
           ((m <=? lng o) && (lng o <? d) || (d <=? lng o) && (lng o <? m))%float,
           (xorb (lat o <? a) (lat o <? c))%float; cbn in Hdisj |- *; try done;
    intuition congruence.
Qed.

Lemma getForecasts_tiles_along_longitude_witness :
  (2%nat ∈ [0%nat; 2%nat] <-> 2%nat ∈ [2%nat] \/ 2%nat ∈ [0%nat]) /\
  ~ (2%nat ∈ [2%nat] /\ 2%nat ∈ [0%nat]).
Proof.
  exact (getForecasts_tiles_along_longitude 60 24 61 24.5 25 None snapshot3
           [0%nat; 2%nat] snapshot3 [2%nat] snapshot3 [0%nat] snapshot3 2%nat
           ltac:(vm_compute; reflexivity) ltac:(vm_compute; reflexivity)
           ltac:(vm_compute; reflexivity) ltac:(vm_compute; reflexivity)
           ltac:(vm_compute; reflexivity) ltac:(vm_compute; reflexivity)
           ltac:(vm_compute; reflexivity) ltac:(vm_compute; reflexivity)
           ltac:(vm_compute; reflexivity) ltac:(vm_compute; reflexivity)).
Defined.

(** A latitude between [a] and [c], split at [n]. *)
Lemma latitude_split a n c x :
  PrimFloat.is_nan a = false -> PrimFloat.is_nan n = false ->
  PrimFloat.is_nan c = false -> PrimFloat.is_nan x = false ->
  (a <=? n)%float = true -> (n <=? c)%float = true ->
  let south := xorb (x <? a)%float (x <? n)%float in
  let north := xorb (x <? n)%float (x <? c)%float in
  xorb (x <? a)%float (x <? c)%float = south || north /\
  south && north = false.
Proof.
  intros Ha Hn Hc Hx Han Hnc south north. unfold south, north.
  destruct (x <? a)%float eqn:Exa.
  - pose proof (ltb_leb_trans x a n Hx Ha Hn Exa Han) as Hxn.
    pose proof (ltb_leb_trans x n c Hx Hn Hc Hxn Hnc) as Hxc.
    by rewrite Hxn, Hxc.
  - destruct (x <? n)%float eqn:Exn.
    + pose proof (ltb_leb_trans x n c Hx Hn Hc Exn Hnc) as Hxc.
      by rewrite Hxc.
    + by destruct (x <? c)%float.
Qed.

(** X18. Two boxes one above the other tile the box they make up: for
    sw.lat <= n <= ne.lat, box and cache in reach of the arithmetic of the
    test, a location is returned for the whole box exactly when it is
    returned for the part south of [n] or for the part north of it, and no
    location is returned for both parts. *)
Theorem getForecasts_tiles_along_latitude a b n c d startTime s
    refs s1 south s2 north s3 r :
  box_in_reach a b c d = true -> finiteb n = true ->
  cache_in_reach b d s = true ->
  (a <=? n)%float = true -> (n <=? c)%float = true ->
  getForecasts (box a b c d) startTime s = (Ok refs, s1) ->
  getForecasts (box a b n d) startTime s = (Ok south, s2) ->
  getForecasts (box n b c d) startTime s = (Ok north, s3) ->
  (r ∈ refs <-> r ∈ south \/ r ∈ north) /\ ~ (r ∈ south /\ r ∈ north).
Proof.
  intros Hbox Hfn Hc Han Hnc H Hs Hn.
  assert (box_in_reach a b n d = true /\ box_in_reach n b c d = true) as [Hsb Hnb].
  { unfold box_in_reach in *. rewrite !andb_true_iff in *. tauto. }
  apply getForecasts_Ok in H as (-> & _).
  apply getForecasts_Ok in Hs as (-> & _).
  apply getForecasts_Ok in Hn as (-> & _).
  rewrite !in_polygon_filter.
  destruct (decide (r ∈ cachedForecasts s)) as [Hr|Hr]; [|tauto].
  destruct (in_polygon_box a b c d s r Hbox Hc Hr) as (o & Ho & H).
  destruct (in_polygon_box a b n d s r Hsb Hc Hr) as (o1 & Ho1 & Hs).
  destruct (in_polygon_box n b c d s r Hnb Hc Hr) as (o2 & Ho2 & Hn).
  rewrite Ho in Ho1, Ho2. injection Ho1 as <-. injection Ho2 as <-.
  unfold in_polygon. rewrite Ho, H, Hs, Hn.
  unfold box_in_reach in Hbox. rewrite !andb_true_iff in Hbox.
  destruct Hbox as [[[[[Hfa _] Hfc] _] _] _].
  unfold cache_in_reach in Hc. rewrite forallb_forall in Hc.
  pose proof (Hc r (proj1 (list_elem_of_In _ _) Hr)) as Hx. rewrite Ho in Hx.
  unfold location_in_reach in Hx. rewrite !andb_true_iff in Hx.
  destruct Hx as [[[Hx _] _] _].
  destruct (latitude_split a n c (lat o)) as [Hsplit Hdisj];
    try (by apply finiteb_not_nan); try done.
  cbn zeta in Hsplit, Hdisj. rewrite Hsplit.
  destruct ((b <=? lng o) && (lng o <? d) || (d <=? lng o) && (lng o <? b))%float,
           (xorb (lat o <? a) (lat o <? n))%float,
           (xorb (lat o <? n) (lat o <? c))%float; cbn in Hdisj |- *; try done;
    intuition congruence.
Qed.

Lemma getForecasts_tiles_along_latitude_witness :
  (0%nat ∈ [0%nat; 2%nat] <-> 0%nat ∈ [2%nat] \/ 0%nat ∈ [0%nat]) /\
  ~ (0%nat ∈ [2%nat] /\ 0%nat ∈ [0%nat]).
Proof.
  exact (getForecasts_tiles_along_latitude 60 24 60.5 61 25 None snapshot3
           [0%nat; 2%nat] snapshot3 [2%nat] snapshot3 [0%nat] snapshot3 0%nat
           ltac:(vm_compute; reflexivity) ltac:(vm_compute; reflexivity)
           ltac:(vm_compute; reflexivity) ltac:(vm_compute; reflexivity)
           ltac:(vm_compute; reflexivity) ltac:(vm_compute; reflexivity)
           ltac:(vm_compute; reflexivity) ltac:(vm_compute; reflexivity)).
Defined.
